(** * Verification of the reply encoder, dispatcher gates, directory buffer
      and session loop of the Rust FUSE binding (fuse-rs).

    Bytes are modelled as [Z] values in [0, 256); a [repr(C)] record sent on
    the wire is the little-endian image of its fields, laid out as in
    [kernel.rs].  A reply handed to a sender is a list of byte groups (the
    [&[&[u8]]] of the Rust code). *)

From Stdlib Require Import String Ascii ZArith List Lia Bool.
Import ListNotations.
Open Scope Z_scope.

(** ** Wire encoding *)

(** Little-endian image of the [n] low bytes of [v] (what a memory copy of a
    [u32]/[i32]/[u64] field gives on a little-endian host). *)
Fixpoint le_bytes (n : nat) (v : Z) : list Z :=
  match n with
  | O => []
  | S n' => v mod 256 :: le_bytes n' (v / 256)
  end.

(** Unsigned value of a little-endian byte string. *)
Fixpoint le_value (bs : list Z) : Z :=
  match bs with
  | [] => 0
  | b :: bs' => b + 256 * le_value bs'
  end.

(** Reading a 32-bit field as [i32]. *)
Definition signed32 (w : Z) : Z := if w <? 2 ^ 31 then w else w - 2 ^ 32.

(** [x as u32] and wrapping [i32] arithmetic. *)
Definition as_u32 (x : Z) : Z := x mod 2 ^ 32.
Definition wrap_i32 (x : Z) : Z := signed32 (x mod 2 ^ 32).

(** Linux errno values used by the code. *)
Definition ENOENT : Z := 2.
Definition EINTR : Z := 4.
Definition EIO : Z := 5.
Definition EAGAIN : Z := 11.
Definition ENODEV : Z := 19.
Definition ENOSYS : Z := 38.
Definition EPROTO : Z := 71.

(** [kernel.rs]: [struct fuse_out_header { len: u32, error: i32, unique: u64 }]. *)
Record fuse_out_header := {
  oh_len : Z;
  oh_error : Z;
  oh_unique : Z
}.

Definition out_header_bytes (h : fuse_out_header) : list Z :=
  le_bytes 4 (oh_len h) ++ le_bytes 4 (oh_error h) ++ le_bytes 8 (oh_unique h).

(** Reading the 16 bytes of a [fuse_out_header] back as its three fields. *)
Definition decode_out_header (bs : list Z) : option (Z * Z * Z) :=
  if Nat.eqb (length bs) 16 then
    Some (le_value (firstn 4 bs),
          signed32 (le_value (firstn 4 (skipn 4 bs))),
          le_value (skipn 8 bs))
  else None.

(** A message handed to a sender: the byte groups of one [writev]. *)
Definition message := list (list Z).

(** Total length of the byte groups
    ([bytes.iter().fold(0, |l, b| l + b.len())]). *)
Definition groups_len (bytes : message) : Z :=
  fold_left (fun l b => l + Z.of_nat (length b)) bytes 0.

(** ** Replies ([reply.rs]) *)

Module Reply.

(** [as_bytes]: a value of size 0 gives no byte group, any other value the
    single group of its memory image. *)
Definition as_bytes (image : list Z) : message :=
  match image with
  | [] => []
  | _ => [image]
  end.

(** [ReplyRaw<T>]: the request's unique id and the sender closure, which is
    present ([true]) until it is taken by [send]. *)
Record ReplyRaw := {
  unique : Z;
  sender : bool
}.

(** [Reply::new(unique, sender)]. *)
Definition new (u : Z) : ReplyRaw := {| unique := u; sender := true |}.

(** [ReplyRaw::send]: asserts that the sender is present ([None] models the
    failed assertion), builds the out-header, takes the sender and invokes it
    once with the header bytes followed by the given groups. *)
Definition send (r : ReplyRaw) (err : Z) (bytes : message)
  : option (ReplyRaw * message) :=
  if sender r then
    let len := groups_len bytes in
    let header := {| oh_len := as_u32 (16 + len);
                     oh_error := wrap_i32 (- err);
                     oh_unique := unique r |} in
    Some ({| unique := unique r; sender := false |},
          as_bytes (out_header_bytes header) ++ bytes)
  else None.

(** [impl Drop for ReplyRaw]: if the sender was never taken, reply with an
    I/O error.  The result is the list of messages the drop sends. *)
Definition drop (r : ReplyRaw) : list message :=
  if sender r then
    match send r EIO [] with
    | Some (_, m) => [m]
    | None => []
    end
  else [].

End Reply.

Module Replies.
Import Reply.

(** The terminal methods of the reply variants of [reply.rs].  Each one
    consumes the reply object; the variants wrap a [ReplyRaw].
    [ReplyEntry::entry], [ReplyAttr::attr], [ReplyCreate::created] and
    [ReplyXTimes::xtimes] build a [fuse_*_out] record from their arguments
    and pass it to [ReplyRaw::ok]: they are [raw_ok] with the record's
    memory image. *)
Inductive terminal :=
| raw_ok (image : list Z)                     (* ReplyRaw::ok *)
| error (err : Z)                             (* ReplyRaw::error and every variant's error *)
| empty_ok                                    (* ReplyEmpty::ok *)
| data_data (d : list Z)                      (* ReplyData::data *)
| open_opened (fh flags : Z)                  (* ReplyOpen::opened *)
| write_written (size : Z)                    (* ReplyWrite::written *)
| statfs_statfs (blocks bfree bavail files ffree bsize namelen frsize : Z)
                                              (* ReplyStatfs::statfs *)
| lock_locked (start end_ typ pid : Z)        (* ReplyLock::locked *)
| bmap_bmap (block : Z)                       (* ReplyBmap::bmap *)
| directory_ok (data : list Z).               (* ReplyDirectory::ok, with its buffer *)

(** [fuse_open_out { fh: u64, open_flags: u32, padding: u32 }]. *)
Definition fuse_open_out_image (fh flags : Z) : list Z :=
  le_bytes 8 fh ++ le_bytes 4 flags ++ le_bytes 4 0.

(** [fuse_write_out { size: u32, padding: u32 }]. *)
Definition fuse_write_out_image (size : Z) : list Z :=
  le_bytes 4 size ++ le_bytes 4 0.

(** [fuse_statfs_out { st: fuse_kstatfs }]. *)
Definition fuse_statfs_out_image (blocks bfree bavail files ffree bsize namelen frsize : Z)
  : list Z :=
  le_bytes 8 blocks ++ le_bytes 8 bfree ++ le_bytes 8 bavail ++ le_bytes 8 files
  ++ le_bytes 8 ffree ++ le_bytes 4 bsize ++ le_bytes 4 namelen ++ le_bytes 4 frsize
  ++ le_bytes 4 0 ++ le_bytes 24 0.

(** [fuse_lk_out { lk: fuse_file_lock { start, end, typ, pid } }]. *)
Definition fuse_lk_out_image (start end_ typ pid : Z) : list Z :=
  le_bytes 8 start ++ le_bytes 8 end_ ++ le_bytes 4 typ ++ le_bytes 4 pid.

(** [fuse_bmap_out { block: u64 }]. *)
Definition fuse_bmap_out_image (block : Z) : list Z := le_bytes 8 block.

(** The [err] and byte groups each terminal method hands to [ReplyRaw::send]. *)
Definition send_args (t : terminal) : Z * message :=
  match t with
  | raw_ok image => (0, as_bytes image)
  | error err => (err, [])
  | empty_ok => (0, [])
  | data_data d => (0, [d])
  | open_opened fh flags => (0, as_bytes (fuse_open_out_image fh flags))
  | write_written size => (0, as_bytes (fuse_write_out_image size))
  | statfs_statfs b bf ba fi ff bs nl fr =>
      (0, as_bytes (fuse_statfs_out_image b bf ba fi ff bs nl fr))
  | lock_locked s e ty p => (0, as_bytes (fuse_lk_out_image s e ty p))
  | bmap_bmap blk => (0, as_bytes (fuse_bmap_out_image blk))
  | directory_ok data => (0, [data])
  end.

(** Calling a terminal method: [send] once, then the consumed reply object is
    dropped at the end of the method.  Result: every message sent, in
    order, or [None] if the assertion in [send] fails. *)
Definition run_terminal (r : ReplyRaw) (t : terminal) : option (list message) :=
  let '(err, bytes) := send_args t in
  match send r err bytes with
  | Some (r', m) => Some (m :: drop r')
  | None => None
  end.

(** Every reply variant of [reply.rs] (Linux build), each wrapping a
    [ReplyRaw]; [ReplyDirectory] also holds its size and buffer. *)
Inductive AnyReply :=
| RRaw (r : ReplyRaw)
| REmpty (r : ReplyRaw)
| RData (r : ReplyRaw)
| REntry (r : ReplyRaw)
| RAttr (r : ReplyRaw)
| ROpen (r : ReplyRaw)
| RWrite (r : ReplyRaw)
| RStatfs (r : ReplyRaw)
| RCreate (r : ReplyRaw)
| RLock (r : ReplyRaw)
| RBmap (r : ReplyRaw)
| RDirectory (r : ReplyRaw) (size : Z) (data : list Z).

Definition inner (a : AnyReply) : ReplyRaw :=
  match a with
  | RRaw r | REmpty r | RData r | REntry r | RAttr r | ROpen r | RWrite r
  | RStatfs r | RCreate r | RLock r | RBmap r => r
  | RDirectory r _ _ => r
  end.

(** Dropping a variant drops its fields; only the [ReplyRaw] has a
    destructor. *)
Definition drop_reply (a : AnyReply) : list message := drop (inner a).

(** The error field a reply should carry: 0 on success, [-errno] on
    failure. *)
Definition expected_error (t : terminal) : Z :=
  match t with
  | error e => - e
  | _ => 0
  end.

Definition errno_in_range (t : terminal) : Prop :=
  match t with
  | error e => 0 <= e < 2 ^ 31
  | _ => True
  end.

End Replies.

(** The bytes of a string ([OsStr::as_bytes] of an ASCII name). *)
Fixpoint bytes_of_string (s : string) : list Z :=
  match s with
  | EmptyString => []
  | String c rest => Z.of_nat (nat_of_ascii c) :: bytes_of_string rest
  end.

(** ** Directory reply buffer ([ReplyDirectory] in [reply.rs]) *)

Module Directory.
Import Reply.

(** [FileType] of the crate's [lib.rs]. *)
Inductive FileType :=
| NamedPipe | CharDevice | BlockDevice | Directory | RegularFile | Symlink.

(** libc's file type bits (Linux). *)
Definition S_IFIFO : Z := 4096.     (* 0o010000 *)
Definition S_IFCHR : Z := 8192.     (* 0o020000 *)
Definition S_IFBLK : Z := 24576.    (* 0o060000 *)
Definition S_IFDIR : Z := 16384.    (* 0o040000 *)
Definition S_IFREG : Z := 32768.    (* 0o100000 *)
Definition S_IFLNK : Z := 40960.    (* 0o120000 *)

(** [mode_from_kind_and_perm]. *)
Definition mode_from_kind_and_perm (kind : FileType) (perm : Z) : Z :=
  Z.lor (match kind with
         | NamedPipe => S_IFIFO
         | CharDevice => S_IFCHR
         | BlockDevice => S_IFBLK
         | Directory => S_IFDIR
         | RegularFile => S_IFREG
         | Symlink => S_IFLNK
         end) perm.

(** [struct ReplyDirectory { reply, size, data: Vec<u8> }]; [capacity] is
    the capacity of the [Vec], the bound [add] checks. *)
Record ReplyDirectory := {
  reply : ReplyRaw;
  size : Z;
  data : list Z;
  capacity : Z
}.

(** [ReplyDirectory::new]: [Vec::with_capacity(4096)]. *)
Definition new (u : Z) : ReplyDirectory :=
  {| reply := Reply.new u; size := 0; data := []; capacity := 4096 |}.

(** [mem::size_of::<fuse_dirent>()]: [ino: u64, off: i64, namelen: u32,
    typ: u32]. *)
Definition size_of_fuse_dirent : Z := 24.

(** [ReplyDirectory::add]: returns [true] ("full") and leaves the buffer
    alone if the aligned entry does not fit in the capacity; otherwise
    appends the [fuse_dirent] record, the name and the zero padding. *)
Definition add (d : ReplyDirectory) (ino offset : Z) (kind : FileType) (name : list Z)
  : bool * ReplyDirectory :=
  let entlen := size_of_fuse_dirent + Z.of_nat (length name) in
  let entsize := Z.land (entlen + 8 - 1) (Z.lnot (8 - 1)) in
  let padlen := entsize - entlen in
  if Z.of_nat (length (data d)) + entsize >? capacity d then (true, d)
  else
    let entry := le_bytes 8 ino ++ le_bytes 8 offset
                 ++ le_bytes 4 (Z.of_nat (length name))
                 ++ le_bytes 4 (Z.shiftr (mode_from_kind_and_perm kind 0) 12)
                 ++ name ++ repeat 0 (Z.to_nat padlen) in
    (false, {| reply := reply d; size := size d; data := data d ++ entry;
               capacity := capacity d |}).

(** A sequence of [add] calls; the "full" results in order. *)
Fixpoint add_all (d : ReplyDirectory) (es : list (Z * Z * FileType * list Z))
  : list bool * ReplyDirectory :=
  match es with
  | [] => ([], d)
  | (ino, off, kind, name) :: rest =>
      let '(full, d1) := add d ino off kind name in
      let '(fulls, d2) := add_all d1 rest in
      (full :: fulls, d2)
  end.

(** [ReplyDirectory::ok]: sends the buffer as the single payload group. *)
Definition ok (d : ReplyDirectory) : option (list message) :=
  Replies.run_terminal (reply d) (Replies.directory_ok (data d)).

(** The entry size the protocol asks for: [24 + namelen] rounded up to a
    multiple of 8. *)
Definition aligned_entry_size (name : list Z) : Z :=
  8 * ((24 + Z.of_nat (length name) + 7) / 8).

End Directory.

(** ** Requests and the dispatcher ([request.rs], [kernel.rs]) *)

Module Dispatch.
Import Reply.

(** [enum fuse_opcode] (Linux build: the macOS-only opcodes 61-63 are
    compiled out). *)
Inductive fuse_opcode :=
| FUSE_LOOKUP | FUSE_FORGET | FUSE_GETATTR | FUSE_SETATTR | FUSE_READLINK
| FUSE_SYMLINK | FUSE_MKNOD | FUSE_MKDIR | FUSE_UNLINK | FUSE_RMDIR
| FUSE_RENAME | FUSE_LINK | FUSE_OPEN | FUSE_READ | FUSE_WRITE | FUSE_STATFS
| FUSE_RELEASE | FUSE_FSYNC | FUSE_SETXATTR | FUSE_GETXATTR | FUSE_LISTXATTR
| FUSE_REMOVEXATTR | FUSE_FLUSH | FUSE_INIT | FUSE_OPENDIR | FUSE_READDIR
| FUSE_RELEASEDIR | FUSE_FSYNCDIR | FUSE_GETLK | FUSE_SETLK | FUSE_SETLKW
| FUSE_ACCESS | FUSE_CREATE | FUSE_INTERRUPT | FUSE_BMAP | FUSE_DESTROY
| FUSE_IOCTL | FUSE_POLL | FUSE_NOTIFY_REPLY | FUSE_BATCH_FORGET
| FUSE_FALLOCATE | FUSE_READDIRPLUS | FUSE_RENAME2 | FUSE_LSEEK
| FUSE_SETVOLNAME | FUSE_GETXTIMES | FUSE_EXCHANGE
| CUSE_INIT.

(** [fuse_opcode::from_u32] (Linux build). *)
Definition from_u32 (n : Z) : option fuse_opcode :=
  match n with
  | 1 => Some FUSE_LOOKUP | 2 => Some FUSE_FORGET | 3 => Some FUSE_GETATTR
  | 4 => Some FUSE_SETATTR | 5 => Some FUSE_READLINK | 6 => Some FUSE_SYMLINK
  | 8 => Some FUSE_MKNOD | 9 => Some FUSE_MKDIR | 10 => Some FUSE_UNLINK
  | 11 => Some FUSE_RMDIR | 12 => Some FUSE_RENAME | 13 => Some FUSE_LINK
  | 14 => Some FUSE_OPEN | 15 => Some FUSE_READ | 16 => Some FUSE_WRITE
  | 17 => Some FUSE_STATFS | 18 => Some FUSE_RELEASE | 20 => Some FUSE_FSYNC
  | 21 => Some FUSE_SETXATTR | 22 => Some FUSE_GETXATTR | 23 => Some FUSE_LISTXATTR
  | 24 => Some FUSE_REMOVEXATTR | 25 => Some FUSE_FLUSH | 26 => Some FUSE_INIT
  | 27 => Some FUSE_OPENDIR | 28 => Some FUSE_READDIR | 29 => Some FUSE_RELEASEDIR
  | 30 => Some FUSE_FSYNCDIR | 31 => Some FUSE_GETLK | 32 => Some FUSE_SETLK
  | 33 => Some FUSE_SETLKW | 34 => Some FUSE_ACCESS | 35 => Some FUSE_CREATE
  | 36 => Some FUSE_INTERRUPT | 37 => Some FUSE_BMAP | 38 => Some FUSE_DESTROY
  | 39 => Some FUSE_IOCTL | 40 => Some FUSE_POLL | 41 => Some FUSE_NOTIFY_REPLY
  | 42 => Some FUSE_BATCH_FORGET | 43 => Some FUSE_FALLOCATE
  | 44 => Some FUSE_READDIRPLUS | 45 => Some FUSE_RENAME2 | 46 => Some FUSE_LSEEK
  | 4096 => Some CUSE_INIT
  | _ => None
  end.

Definition is_init (op : fuse_opcode) : bool :=
  match op with FUSE_INIT => true | _ => false end.
Definition is_destroy (op : fuse_opcode) : bool :=
  match op with FUSE_DESTROY => true | _ => false end.

(** [struct fuse_in_header] (40 bytes). *)
Record fuse_in_header := {
  ih_len : Z; ih_opcode : Z; ih_unique : Z; ih_nodeid : Z;
  ih_uid : Z; ih_gid : Z; ih_pid : Z; ih_padding : Z
}.

Definition size_of_fuse_in_header : nat := 40.

(** Reading the 40 header bytes ([ArgumentIterator::fetch] reinterprets the
    next [size_of::<fuse_in_header>()] bytes). *)
Definition read_in_header (bs : list Z) : fuse_in_header :=
  let field o n := le_value (firstn n (skipn o bs)) in
  {| ih_len := field 0 4; ih_opcode := field 4 4; ih_unique := field 8 8;
     ih_nodeid := field 16 8; ih_uid := field 24 4; ih_gid := field 28 4;
     ih_pid := field 32 4; ih_padding := field 36 4 |}%nat.

(** The memory image of a [#[repr(C)] fuse_in_header] as the kernel writes
    it ([kernel.rs]: [len: u32, opcode: u32, unique: u64, nodeid: u64, uid,
    gid, pid, padding: u32]). *)
Definition fuse_in_header_bytes (h : fuse_in_header) : list Z :=
  le_bytes 4 (ih_len h) ++ le_bytes 4 (ih_opcode h) ++ le_bytes 8 (ih_unique h)
  ++ le_bytes 8 (ih_nodeid h) ++ le_bytes 4 (ih_uid h) ++ le_bytes 4 (ih_gid h)
  ++ le_bytes 4 (ih_pid h) ++ le_bytes 4 (ih_padding h).

(** [struct Request]: the parsed header and the payload slice. *)
Record Request := {
  header : fuse_in_header;
  payload : list Z
}.

(** [Request::new]: rejects a buffer shorter than the header, takes the
    header and the remaining bytes as payload, and rejects the request if
    the buffer is shorter than the header's [len]. *)
Definition request_new (buffer : list Z) : option Request :=
  if (length buffer <? size_of_fuse_in_header)%nat then None
  else
    let req := {| header := read_in_header buffer;
                  payload := skipn size_of_fuse_in_header buffer |} in
    if Z.of_nat (length buffer) <? ih_len (header req) then None
    else Some req.

(** [struct fuse_init_in { major, minor, max_readahead, flags }]. *)
Record fuse_init_in := {
  major : Z; minor : Z; max_readahead : Z; flags : Z
}.

Definition fuse_init_in_bytes (a : fuse_init_in) : list Z :=
  le_bytes 4 (major a) ++ le_bytes 4 (minor a) ++ le_bytes 4 (max_readahead a)
  ++ le_bytes 4 (flags a).

(** Modelled from the spec: [ArgumentIterator::fetch] (argument.rs is not in
    the source tree) reinterprets the next [size_of::<T>()] bytes of the
    payload and fails ([None]) when the payload is shorter. *)
Definition fetch_init_in (data : list Z) : option fuse_init_in :=
  if (length data <? 16)%nat then None
  else
    let field o := le_value (firstn 4 (skipn o data)) in
    Some {| major := field 0; minor := field 4; max_readahead := field 8;
            flags := field 12 |}%nat.

(** [kernel.rs] version and flags, [request.rs] [INIT_FLAGS] (Linux) and
    [MAX_WRITE_SIZE]. *)
Definition FUSE_KERNEL_VERSION : Z := 7.
Definition FUSE_KERNEL_MINOR_VERSION : Z := 26.
Definition INIT_FLAGS : Z :=
  Z.lor 1 (Z.lor 32 (Z.lor 8 (Z.lor (2 ^ 20) (Z.lor (2 ^ 16) 64)))).
Definition MAX_WRITE_SIZE : Z := 16 * 1024 * 1024.

(** The [fuse_init_out] record of the INIT reply. *)
Definition fuse_init_out_image (arg : fuse_init_in) : list Z :=
  le_bytes 4 FUSE_KERNEL_VERSION ++ le_bytes 4 FUSE_KERNEL_MINOR_VERSION
  ++ le_bytes 4 (max_readahead arg) ++ le_bytes 4 (Z.land (flags arg) INIT_FLAGS)
  ++ le_bytes 2 0 ++ le_bytes 2 0 ++ le_bytes 4 MAX_WRITE_SIZE ++ le_bytes 4 1
  ++ le_bytes 36 0.

(** The fields of [Session] the dispatcher reads and writes. *)
Record Session := {
  proto_major : Z;
  proto_minor : Z;
  initialized : bool;
  destroyed : bool
}.

(** What a dispatch does, in order: replies written to the channel, calls of
    the filesystem's [init] and [destroy], and the hand-over to the
    opcode's own arm (which parses the opcode's arguments and calls the
    corresponding filesystem method, or answers ENOSYS for the opcodes the
    crate does not implement). *)
Inductive event :=
| Sent (m : message)
| CallInit
| CallDestroy
| Handler (op : fuse_opcode).

Definition sent (o : option (list message)) : list event :=
  match o with
  | Some ms => map Sent ms
  | None => []
  end.

(** Reply with [error(err)] through a fresh [ReplyEmpty]/[ReplyRaw]. *)
Definition reply_error (u err : Z) : list event :=
  sent (Replies.run_terminal (Reply.new u) (Replies.error err)).

(** [Request::dispatch] of [request.rs]; [init_result] is what the
    filesystem's [init] returns ([None] for [Ok(())], [Some err] for
    [Err(err)]).  [None] as a whole: the INIT payload was too short. *)
Definition dispatch (se : Session) (req : Request) (init_result : option Z)
  : option (Session * list event) :=
  let u := ih_unique (header req) in
  match from_u32 (ih_opcode (header req)) with
  | None => Some (se, reply_error u ENOSYS)
  | Some op =>
    if is_init op then
      match fetch_init_in (payload req) with
      | None => None
      | Some arg =>
        if (major arg <? 7) || ((major arg =? 7) && (minor arg <? 6)) then
          Some (se, reply_error u EPROTO)
        else
          let se1 := {| proto_major := major arg; proto_minor := minor arg;
                        initialized := initialized se; destroyed := destroyed se |} in
          match init_result with
          | Some err => Some (se1, CallInit :: reply_error u err)
          | None =>
            Some ({| proto_major := major arg; proto_minor := minor arg;
                     initialized := true; destroyed := destroyed se |},
                  CallInit :: sent (Replies.run_terminal (Reply.new u)
                                      (Replies.raw_ok (fuse_init_out_image arg))))
          end
      end
    else if negb (initialized se) then Some (se, reply_error u EIO)
    else if is_destroy op then
      Some ({| proto_major := proto_major se; proto_minor := proto_minor se;
               initialized := initialized se; destroyed := true |},
            CallDestroy :: sent (Replies.run_terminal (Reply.new u) Replies.empty_ok))
    else if destroyed se then Some (se, reply_error u EIO)
    else Some (se, [Handler op])
  end.

(** The opcodes of the older [Session::dispatch] in [session.rs]: its match
    has no wildcard arm, so its [fuse_opcode] holds exactly the opcodes it
    matches (including SETVOLNAME, GETXTIMES and EXCHANGE). *)
Definition from_u32_v0 (n : Z) : option fuse_opcode :=
  match n with
  | 39 | 40 | 41 | 42 | 43 | 44 | 45 | 46 | 4096 => None
  | 61 => Some FUSE_SETVOLNAME
  | 62 => Some FUSE_GETXTIMES
  | 63 => Some FUSE_EXCHANGE
  | _ => from_u32 n
  end.

(** Modelled from the spec: [send_reply]/[send_reply_error] of the older
    request module (not in the source tree) write the out-header with
    [error = -err] (or 0) and the reply record, as every reply does. *)
Definition send_reply_error (u err : Z) : list event := reply_error u err.
Definition send_reply_ok (u : Z) (image : list Z) : list event :=
  sent (Replies.run_terminal (Reply.new u) (Replies.raw_ok image)).

(** [fuse_init_out] of the older ABI ([major, minor, max_readahead, flags,
    unused, max_write]) with [flags: INIT_FLAGS = FUSE_ASYNC_READ]. *)
Definition fuse_init_out_image_v0 (arg : fuse_init_in) : list Z :=
  le_bytes 4 FUSE_KERNEL_VERSION ++ le_bytes 4 FUSE_KERNEL_MINOR_VERSION
  ++ le_bytes 4 (max_readahead arg) ++ le_bytes 4 1 ++ le_bytes 4 0
  ++ le_bytes 4 MAX_WRITE_SIZE.

(** [Session::dispatch] of the older [session.rs], same shape as above; its
    ABI test reads [arg.major < 7 || (arg.major < 7 && arg.minor < 6)]. *)
Definition dispatch_v0 (se : Session) (req : Request) (init_result : option Z)
  : option (Session * list event) :=
  let u := ih_unique (header req) in
  match from_u32_v0 (ih_opcode (header req)) with
  | None => Some (se, send_reply_error u ENOSYS)
  | Some op =>
    if is_init op then
      match fetch_init_in (payload req) with
      | None => None
      | Some arg =>
        if (major arg <? 7) || ((major arg <? 7) && (minor arg <? 6)) then
          Some (se, send_reply_error u EPROTO)
        else
          let se1 := {| proto_major := major arg; proto_minor := minor arg;
                        initialized := initialized se; destroyed := destroyed se |} in
          match init_result with
          | Some err => Some (se1, CallInit :: send_reply_error u err)
          | None =>
            Some ({| proto_major := major arg; proto_minor := minor arg;
                     initialized := true; destroyed := destroyed se |},
                  CallInit :: send_reply_ok u (fuse_init_out_image_v0 arg))
          end
      end
    else if negb (initialized se) then Some (se, send_reply_error u EIO)
    else if is_destroy op then
      Some ({| proto_major := proto_major se; proto_minor := proto_minor se;
               initialized := initialized se; destroyed := true |},
            CallDestroy :: send_reply_ok u [])
    else if destroyed se then Some (se, send_reply_error u EIO)
    else Some (se, [Handler op])
  end.

(** An event is a call into the filesystem implementation. *)
Definition calls_filesystem (e : event) : bool :=
  match e with
  | Sent _ => false
  | CallInit | CallDestroy | Handler _ => true
  end.

End Dispatch.

(** * Session loops *)

Module Loop.

(** The result of one [receive]/[read] on the channel: the bytes read, or
    the [errno] of a failed read. *)
Inductive recv :=
| RecvOk (buf : list Z)
| RecvErr (errno : Z).

(** How [run] ends on a finite sequence of reads: [Ok(())], [Err(errno)],
    or still looping when the reads run out. *)
Inductive outcome :=
| RunOk
| RunErr (errno : Z)
| Pending.

Definition is_retry (e : Z) : bool :=
  (e =? ENOENT) || (e =? EINTR) || (e =? EAGAIN).

(** [Session::run] of the [fuse] crate ([fuse/src/session.rs]): a received
    buffer goes through [request::request] (that is [Request::new]); an
    accepted request is dispatched, a rejected one ends the loop; read errors
    are retried, end the loop, or are returned.  The second component lists
    the dispatched requests. *)
Fixpoint run (reads : list recv) : outcome * list Dispatch.Request :=
  match reads with
  | [] => (Pending, [])
  | RecvOk buf :: rest =>
    match Dispatch.request_new buf with
    | Some req => let '(o, ds) := run rest in (o, req :: ds)
    | None => (RunOk, [])
    end
  | RecvErr e :: rest =>
    if is_retry e then run rest
    else if e =? ENODEV then (RunOk, [])
    else (RunErr e, [])
  end.

Section Lowlevel.

(** [Request::try_from] of the low-level API, whatever it accepts. *)
Variable Req : Type.
Variable parse : list Z -> option Req.

(** [Session::run] of [lowlevel/session.rs], with [Session::next_packet]
    inlined: read errors are retried, end the loop ([Ok(None)] from
    [next_packet]) or are returned; a packet that does not parse is logged
    and skipped. *)
Fixpoint run_lowlevel (reads : list recv) : outcome * list Req :=
  match reads with
  | [] => (Pending, [])
  | RecvOk buf :: rest =>
    let '(o, ds) := run_lowlevel rest in
    match parse buf with
    | Some req => (o, req :: ds)
    | None => (o, ds)
    end
  | RecvErr e :: rest =>
    if is_retry e then run_lowlevel rest
    else if e =? ENODEV then (RunOk, [])
    else (RunErr e, [])
  end.

End Lowlevel.

End Loop.

(** * Sending replies on the channel *)

Module Channel.

(** What sending a reply does on the outside: one [writev] of the message,
    and the [error!] log line of a failed send. *)
Inductive chan_event :=
| Writev (m : message)
| LogError (errno : Z).

Inductive io_result :=
| IoOk
| IoErr (errno : Z).

(** [ChannelSender::send]: [writev] returned [rc]; a negative [rc] is an
    error carrying [errno] ([io::Error::last_os_error]). *)
Definition channel_sender_send (rc errno : Z) : io_result :=
  if rc <? 0 then IoErr errno else IoOk.

(** [impl ReplySender for ChannelSender]: [os] is what the kernel returns for
    this [writev] (its [rc] and [errno]). *)
Definition reply_sender_send (os : Z * Z) (data : message) : unit * list chan_event :=
  match channel_sender_send (fst os) (snd os) with
  | IoOk => (tt, [Writev data])
  | IoErr e => (tt, [Writev data; LogError e])
  end.

(** The messages a reply sends, the [i]-th one meeting the kernel's answer
    [os i]. *)
Fixpoint send_msgs (os : nat -> Z * Z) (i : nat) (ms : list message) : list chan_event :=
  match ms with
  | [] => []
  | m :: ms' => snd (reply_sender_send (os i) m) ++ send_msgs os (S i) ms'
  end.

(** A reply's terminal method (then its drop) on the channel sender: the
    method returns [()]. *)
Definition terminal_io (os : nat -> Z * Z) (r : Reply.ReplyRaw) (t : Replies.terminal)
  : option (unit * list chan_event) :=
  match Replies.run_terminal r t with
  | Some ms => Some (tt, send_msgs os 0 ms)
  | None => None
  end.

Definition writes (evs : list chan_event) : list message :=
  flat_map (fun ev => match ev with Writev m => [m] | LogError _ => [] end) evs.

Definition logged (evs : list chan_event) : list Z :=
  flat_map (fun ev => match ev with Writev _ => [] | LogError e => [e] end) evs.

(** The errnos of the failed sends among the first [n] from index [i]. *)
Fixpoint failures (os : nat -> Z * Z) (i n : nat) : list Z :=
  match n with
  | O => []
  | S n' => (if fst (os i) <? 0 then [snd (os i)] else []) ++ failures os (S i) n'
  end.

End Channel.

(** ** Spliced requests ([request.rs]: [read_request], [new_splice_write]) *)

Module Splice.
Import Dispatch.

(** What one [sys::read] on the pipe gets from the kernel: the bytes
    available (the read transfers at most the slice's length of them), or an
    [errno]. *)
Inductive pipe_read :=
| PipeOk (bytes : list Z)
| PipeErr (errno : Z).

(** [struct Request] with its [source_fd]. *)
Record SpliceRequest := {
  sheader : fuse_in_header;
  sdata : list Z;
  source_fd : option Z
}.

(** A panic (failed [assert!], slice index out of range, failed
    [ArgumentIterator::fetch]), [None], or [Some] request. *)
Inductive result :=
| SPanic
| SNone
| SSome (req : SpliceRequest).

(** [mem::size_of::<fuse_write_in>()]. *)
Definition size_of_fuse_write_in : nat := 40.

Definition request_write_header_size : nat :=
  (size_of_fuse_in_header + size_of_fuse_write_in)%nat.

Definition PAGE_SIZE : nat := 4096.

Definition read_limit : nat := (request_write_header_size + PAGE_SIZE)%nat.

(** [buf] with the bytes [bs] written from index [off] on. *)
Definition write_at (buf : list Z) (off : nat) (bs : list Z) : list Z :=
  firstn off buf ++ bs ++ skipn (off + length bs) buf.

(** Modelled from the spec: [ArgumentIterator::new(slice)] followed by
    [fetch::<fuse_in_header>()] and [fetch_data()]; the fetch fails when the
    slice is shorter than the header. *)
Definition parse_slice (slice : list Z) (fd : option Z) : option SpliceRequest :=
  if (length slice <? size_of_fuse_in_header)%nat then None
  else Some {| sheader := read_in_header slice;
               sdata := skipn size_of_fuse_in_header slice;
               source_fd := fd |}.

(** [read_request]: reads the pipe into [buffer[offset..]] and parses
    [buffer[..request_size]]; the second component lists the
    [(offset, length)] of the slices handed to [sys::read]. *)
Definition read_request (fd : Z) (buffer : list Z) (offset request_size : nat)
                        (r : pipe_read) : result * list (nat * nat) :=
  if negb (request_size <? length buffer)%nat then (SPanic, [])
  else if (length buffer <? offset)%nat then (SPanic, [])
  else
    let slice_len := (length buffer - offset)%nat in
    match r with
    | PipeErr _ => (SNone, [(offset, slice_len)])
    | PipeOk bytes =>
      let buffer' := write_at buffer offset (firstn slice_len bytes) in
      match parse_slice (firstn request_size buffer') None with
      | None => (SPanic, [(offset, slice_len)])
      | Some req =>
        if negb (Z.of_nat request_size =? ih_len (sheader req))
        then (SNone, [(offset, slice_len)])
        else (SSome req, [(offset, slice_len)])
      end
    end.

Definition is_write (op : fuse_opcode) : bool :=
  match op with FUSE_WRITE => true | _ => false end.

(** [Request::new_splice_write]: [r1] and [r2] are what the first and
    second [sys::read] on [pipe_fd] get. *)
Definition new_splice_write (buffer : list Z) (pipe_fd : Z) (size : nat)
                            (r1 r2 : pipe_read) : result * list (nat * nat) :=
  if (size <? size_of_fuse_in_header)%nat then (SNone, [])
  else if (size <? read_limit)%nat then read_request pipe_fd buffer 0 size r1
  else if (length buffer <? request_write_header_size)%nat then (SPanic, [])
  else
    let rd := (0%nat, request_write_header_size) in
    match r1 with
    | PipeErr _ => (SNone, [rd])
    | PipeOk bytes =>
      let got := firstn request_write_header_size bytes in
      if (length got <? request_write_header_size)%nat then (SNone, [rd])
      else
        let buffer1 := write_at buffer 0 got in
        let header := read_in_header buffer1 in
        let not_write_request :=
          match from_u32 (ih_opcode header) with
          | Some opcode => negb (is_write opcode)
          | None => true
          end in
        if not_write_request then
          let '(res, reads) :=
            read_request pipe_fd buffer1 request_write_header_size size r2 in
          (res, rd :: reads)
        else
          match parse_slice buffer1 (Some pipe_fd) with
          | None => (SPanic, [rd])
          | Some req => (SSome req, [rd])
          end
  end.

End Splice.

(** ** Setattr arguments ([request.rs], FUSE_SETATTR arm, Linux) *)

Module Setattr.









End Setattr.

(** ** Mounting and unmounting ([channel.rs], [lowlevel/channel.rs]) *)

Module Mount.

(** [CString::new]: fails on an interior NUL byte. *)
Definition cstring_new (s : list Z) : option (list Z) :=
  if existsb (Z.eqb 0) s then None else Some s.

Fixpoint all_some (xs : list (option (list Z))) : option (list (list Z)) :=
  match xs with
  | [] => Some []
  | None :: _ => None
  | Some x :: rest =>
    match all_some rest with Some ys => Some (x :: ys) | None => None end
  end.

(** The argument vector both mount paths build: the program name then the
    options, each through [CString::new(..).unwrap()] ([None]: the
    [unwrap] panics); [argc] is [argptrs.len() as i32].  The program name
    is "rust-fuse" in [with_fuse_args] ([channel.rs]) and "fuse-rs" in
    [Channel::mount] ([lowlevel/channel.rs]). *)
Definition fuse_args (prog : string) (options : list (list Z)) : option (Z * list (list Z)) :=
  match all_some (map cstring_new (bytes_of_string prog :: options)) with
  | Some args => Some (wrap_i32 (Z.of_nat (length args)), args)
  | None => None
  end.

Definition with_fuse_args (options : list (list Z)) : option (Z * list (list Z)) :=
  fuse_args "rust-fuse" options.

Definition lowlevel_mount_args (options : list (list Z)) : option (Z * list (list Z)) :=
  fuse_args "fuse-rs" options.







End Mount.

(** ** The session loop of the older [session.rs] *)

Module LoopV0.
Import Loop.

(** How [run] ends: the loop broke ([run] returns), a [fail!] or failed
    [assert!] ended the task, or the reads ran out. *)
Inductive outcome_v0 :=
| Stopped
| Panicked
| StillRunning.

(** [Session::run]: a read error is retried, ends the loop or fails the
    task; a buffer goes to [dispatch], which asserts that it holds a
    [fuse_in_header].  The second component lists the buffers dispatched. *)
Fixpoint run_v0 (reads : list recv) : outcome_v0 * list (list Z) :=
  match reads with
  | [] => (StillRunning, [])
  | RecvOk buf :: rest =>
    if (length buf <? Dispatch.size_of_fuse_in_header)%nat then (Panicked, [])
    else let '(o, ds) := run_v0 rest in (o, buf :: ds)
  | RecvErr e :: rest =>
    if (e =? ENOENT) || (e =? EINTR) || (e =? EAGAIN) then run_v0 rest
    else if e =? ENODEV then (Stopped, [])
    else (Panicked, [])
  end.

End LoopV0.

(** * Proofs *)

(** ** Encoding lemmas *)

Lemma le_bytes_length : forall n v, length (le_bytes n v) = n.
Proof. induction n; intros; simpl; auto. Qed.

Lemma le_value_le_bytes : forall n v,
  le_value (le_bytes n v) = v mod 2 ^ (8 * Z.of_nat n).
Proof.
  induction n as [|n IH]; intros v.
  - simpl. now rewrite Z.mod_1_r.
  - cbn [le_bytes le_value]. rewrite IH.
    replace (8 * Z.of_nat (S n)) with (8 + 8 * Z.of_nat n) by lia.
    rewrite Z.pow_add_r by lia.
    rewrite Z.rem_mul_r by (try lia; apply Z.pow_pos_nonneg; lia).
    reflexivity.
Qed.

Lemma groups_len_acc : forall bytes acc,
  fold_left (fun l (b : list Z) => l + Z.of_nat (length b)) bytes acc
  = acc + Z.of_nat (length (concat bytes)).
Proof.
  induction bytes as [|b bs IH]; intros acc; simpl.
  - lia.
  - rewrite IH, length_app. lia.
Qed.

Lemma groups_len_concat : forall bytes,
  groups_len bytes = Z.of_nat (length (concat bytes)).
Proof. intros. unfold groups_len. rewrite groups_len_acc. lia. Qed.

Lemma firstn_prefix : forall (a b : list Z) n, length a = n -> firstn n (a ++ b) = a.
Proof.
  induction a as [|x a IH]; intros b n Hn; simpl in Hn; subst n; simpl; auto.
  now rewrite IH.
Qed.

Lemma skipn_prefix : forall (a b : list Z) n, length a = n -> skipn n (a ++ b) = b.
Proof.
  induction a as [|x a IH]; intros b n Hn; simpl in Hn; subst n; simpl; auto.
Qed.

Lemma decode_out_header_bytes : forall h,
  decode_out_header (out_header_bytes h)
  = Some (oh_len h mod 2 ^ 32, signed32 (oh_error h mod 2 ^ 32), oh_unique h mod 2 ^ 64).
Proof.
  intros [l e u]. unfold decode_out_header, out_header_bytes; cbn [oh_len oh_error oh_unique].
  rewrite !length_app, !le_bytes_length. cbn [Nat.add Nat.eqb].
  rewrite (firstn_prefix _ _ 4) by apply le_bytes_length.
  rewrite (skipn_prefix _ _ 4) by apply le_bytes_length.
  rewrite (firstn_prefix _ _ 4) by apply le_bytes_length.
  rewrite app_assoc, (skipn_prefix _ _ 8)
    by (rewrite length_app, !le_bytes_length; reflexivity).
  rewrite !le_value_le_bytes. reflexivity.
Qed.

Lemma neg_errno_roundtrip : forall e,
  0 <= e < 2 ^ 31 -> signed32 (wrap_i32 (- e) mod 2 ^ 32) = - e.
Proof.
  intros e He. unfold wrap_i32, signed32.
  destruct (Z.eq_dec e 0) as [->|Hne]; [reflexivity|].
  assert (Hm : (- e) mod 2 ^ 32 = 2 ^ 32 - e)
    by (symmetry; apply Z.mod_unique with (-1); lia).
  rewrite Hm.
  destruct (2 ^ 32 - e <? 2 ^ 31) eqn:E; [apply Z.ltb_lt in E; lia|].
  replace (2 ^ 32 - e - 2 ^ 32) with (- e) by lia.
  rewrite Hm, E. lia.
Qed.

Lemma out_header_bytes_length : forall h, length (out_header_bytes h) = 16%nat.
Proof. intros. unfold out_header_bytes. now rewrite !length_app, !le_bytes_length. Qed.

Lemma send_some : forall r err bytes,
  Reply.sender r = true ->
  Reply.send r err bytes
  = Some ({| Reply.unique := Reply.unique r; Reply.sender := false |},
          out_header_bytes {| oh_len := as_u32 (16 + groups_len bytes);
                              oh_error := wrap_i32 (- err);
                              oh_unique := Reply.unique r |} :: bytes).
Proof.
  intros r err bytes Hs. unfold Reply.send. rewrite Hs.
  match goal with |- context [Reply.as_bytes (out_header_bytes ?h)] =>
    destruct (out_header_bytes h) as [|b bs] eqn:E end.
  - apply (f_equal (@length Z)) in E. rewrite out_header_bytes_length in E. discriminate.
  - reflexivity.
Qed.

(** C1: every terminal method of a reply sends one message whose first byte
    group is a [fuse_out_header] with [len] = total bytes of the message
    (16 + payload), [unique] = the request's unique and [error] = 0 on
    success or [-errno] for [error(errno)]; the payload groups follow. *)
Theorem reply_header_fields : forall r t,
  Reply.sender r = true ->
  0 <= Reply.unique r < 2 ^ 64 ->
  Replies.errno_in_range t ->
  16 + Z.of_nat (length (concat (snd (Replies.send_args t)))) < 2 ^ 32 ->
  exists hdr,
    Replies.run_terminal r t = Some [hdr :: snd (Replies.send_args t)] /\
    decode_out_header hdr
      = Some (Z.of_nat (length (concat (hdr :: snd (Replies.send_args t)))),
              Replies.expected_error t, Reply.unique r).
Proof.
  intros r t Hs Hu He Hlen.
  assert (Herr : signed32 (wrap_i32 (- fst (Replies.send_args t)) mod 2 ^ 32)
                 = Replies.expected_error t).
  { destruct t; simpl in *; try reflexivity. now apply neg_errno_roundtrip. }
  unfold Replies.run_terminal.
  destruct (Replies.send_args t) as [err bytes] eqn:Ea. cbn [fst snd] in *.
  rewrite send_some by exact Hs.
  eexists. split; [reflexivity|].
  rewrite decode_out_header_bytes. unfold oh_len, oh_error, oh_unique.
  rewrite Herr, groups_len_concat.
  cbn [concat]. rewrite length_app, out_header_bytes_length.
  unfold as_u32. rewrite Z.mod_mod by lia.
  rewrite Z.mod_small by lia. rewrite (Z.mod_small (Reply.unique r)) by lia.
  f_equal. f_equal. f_equal. lia.
Qed.

(** C2: dropping a reply object of any variant whose sender was never taken
    sends exactly one message, a bare [fuse_out_header] with [len = 16],
    [error = -EIO] and the request's unique; a reply whose terminal method
    ran has sent exactly one message in total, so its destructor sent
    nothing further. *)
Theorem reply_drop_sends_eio : forall a : Replies.AnyReply,
  Reply.sender (Replies.inner a) = true ->
  Replies.drop_reply a
    = [[out_header_bytes {| oh_len := 16; oh_error := - EIO;
                            oh_unique := Reply.unique (Replies.inner a) |}]]
  /\ (forall t ms, Replies.run_terminal (Replies.inner a) t = Some ms ->
                   length ms = 1%nat).
Proof.
  intros a Hs. split.
  - unfold Replies.drop_reply, Reply.drop. rewrite Hs, send_some by exact Hs.
    reflexivity.
  - intros t ms Hrun. unfold Replies.run_terminal in Hrun.
    destruct (Replies.send_args t) as [err bytes].
    rewrite send_some in Hrun by exact Hs. injection Hrun as <-. reflexivity.
Qed.

(** C7: the readdir packing scenario of the test [reply_directory]: adding
    ([0xAABB], 1, Directory, "hello") and ([0xCCDD], 2, RegularFile,
    "world.rs") to a new directory reply and calling [ok] sends exactly one
    message: an out-header with [len = 80], [error = 0] and the request's
    unique, followed by the two packed, 8-byte aligned dirent records. *)
Theorem directory_packing_scenario : forall u,
  let d0 := Directory.new u in
  let '(full1, d1) := Directory.add d0 0xAABB 1 Directory.Directory (bytes_of_string "hello") in
  let '(full2, d2) := Directory.add d1 0xCCDD 2 Directory.RegularFile (bytes_of_string "world.rs") in
  full1 = false /\ full2 = false /\
  Directory.ok d2
  = Some [[out_header_bytes {| oh_len := 80; oh_error := 0; oh_unique := u |};
           [0xBB; 0xAA; 0; 0; 0; 0; 0; 0;  1; 0; 0; 0; 0; 0; 0; 0;
            5; 0; 0; 0; 4; 0; 0; 0;  0x68; 0x65; 0x6c; 0x6c; 0x6f; 0; 0; 0;
            0xDD; 0xCC; 0; 0; 0; 0; 0; 0;  2; 0; 0; 0; 0; 0; 0; 0;
            8; 0; 0; 0; 8; 0; 0; 0;  0x77; 0x6f; 0x72; 0x6c; 0x64; 0x2e; 0x72; 0x73]]].
Proof. intros u. repeat split; reflexivity. Qed.

(** ** Directory buffer *)

Lemma land_lnot7 : forall x, 0 <= x -> Z.land x (Z.lnot 7) = 8 * (x / 8).
Proof.
  intros x Hx. change 7 with (Z.ones 3).
  rewrite <- Z.ldiff_land, Z.ldiff_ones_r by lia.
  rewrite Z.shiftl_mul_pow2, Z.shiftr_div_pow2 by lia. change (2 ^ 3) with 8. lia.
Qed.

Lemma add_entsize : forall name,
  Z.land (Directory.size_of_fuse_dirent + Z.of_nat (length name) + 8 - 1) (Z.lnot (8 - 1))
  = Directory.aligned_entry_size name.
Proof.
  intros. unfold Directory.aligned_entry_size, Directory.size_of_fuse_dirent.
  replace (24 + Z.of_nat (length name) + 8 - 1) with (24 + Z.of_nat (length name) + 7) by lia.
  apply land_lnot7. lia.
Qed.

Lemma aligned_entry_size_bounds : forall name,
  24 + Z.of_nat (length name) <= Directory.aligned_entry_size name.
Proof.
  intros. unfold Directory.aligned_entry_size.
  pose proof (Z.mod_pos_bound (24 + Z.of_nat (length name) + 7) 8 ltac:(lia)).
  pose proof (Z.div_mod (24 + Z.of_nat (length name) + 7) 8 ltac:(lia)). lia.
Qed.

(** Unfolding [add] with the aligned size. *)
Lemma add_spec : forall d ino off kind name,
  Directory.add d ino off kind name
  = if Z.of_nat (length (Directory.data d)) + Directory.aligned_entry_size name
       >? Directory.capacity d
    then (true, d)
    else (false,
          {| Directory.reply := Directory.reply d; Directory.size := Directory.size d;
             Directory.data := Directory.data d ++
               (le_bytes 8 ino ++ le_bytes 8 off ++ le_bytes 4 (Z.of_nat (length name))
                ++ le_bytes 4 (Z.shiftr (Directory.mode_from_kind_and_perm kind 0) 12)
                ++ name ++ repeat 0 (Z.to_nat (Directory.aligned_entry_size name
                                               - (24 + Z.of_nat (length name)))));
             Directory.capacity := Directory.capacity d |}).
Proof.
  intros. unfold Directory.add. rewrite add_entsize. reflexivity.
Qed.

Lemma add_entry_length : forall ino off kind (name : list Z),
  Z.of_nat (length (le_bytes 8 ino ++ le_bytes 8 off ++ le_bytes 4 (Z.of_nat (length name))
                ++ le_bytes 4 (Z.shiftr (Directory.mode_from_kind_and_perm kind 0) 12)
                ++ name ++ repeat 0 (Z.to_nat (Directory.aligned_entry_size name
                                               - (24 + Z.of_nat (length name))))))
  = Directory.aligned_entry_size name.
Proof.
  intros. pose proof (aligned_entry_size_bounds name).
  rewrite !length_app, !le_bytes_length, repeat_length. lia.
Qed.

Definition entries_size (es : list (Z * Z * Directory.FileType * list Z)) : Z :=
  fold_right (fun '(_, _, _, name) acc => Directory.aligned_entry_size name + acc) 0 es.

Lemma entries_size_cons : forall ino off kind name es,
  entries_size ((ino, off, kind, name) :: es)
  = Directory.aligned_entry_size name + entries_size es.
Proof. reflexivity. Qed.

Lemma entries_size_nonneg : forall es, 0 <= entries_size es.
Proof.
  induction es as [|[[[ino off] kind] name] es IH]; [cbn; lia|].
  rewrite entries_size_cons. pose proof (aligned_entry_size_bounds name). lia.
Qed.

(** C6: [add] never grows the buffer past its capacity; an [add] whose
    aligned entry (24 + namelen rounded up to 8) does not fit in the
    remaining room returns [true] and leaves the reply unchanged, one that
    fits returns [false] and appends exactly that many bytes; and a buffer
    whose remaining room is exactly the total size of N entries accepts
    all N and then rejects any further entry. *)
Theorem directory_add_capacity : forall d,
  Z.of_nat (length (Directory.data d)) <= Directory.capacity d ->
  (forall ino off kind name,
     let r := Directory.add d ino off kind name in
     Directory.capacity (snd r) = Directory.capacity d /\
     Z.of_nat (length (Directory.data (snd r))) <= Directory.capacity d /\
     (fst r = true <->
        Z.of_nat (length (Directory.data d)) + Directory.aligned_entry_size name
        > Directory.capacity d) /\
     (fst r = true -> snd r = d) /\
     (fst r = false -> exists e, Directory.data (snd r) = Directory.data d ++ e /\
                        Z.of_nat (length e) = Directory.aligned_entry_size name)) /\
  (forall es,
     Z.of_nat (length (Directory.data d)) + entries_size es = Directory.capacity d ->
     fst (Directory.add_all d es) = repeat false (length es) /\
     forall ino off kind name,
       fst (Directory.add (snd (Directory.add_all d es)) ino off kind name) = true).
Proof.
  intros d Hd. split.
  - intros ino off kind name r. subst r. rewrite add_spec.
    pose proof (add_entry_length ino off kind name) as Hl.
    destruct (Z.of_nat (length (Directory.data d)) + Directory.aligned_entry_size name
              >? Directory.capacity d) eqn:E.
    + apply Z.gtb_lt in E. cbn [fst snd]. repeat split; auto; lia.
    + rewrite Z.gtb_ltb, Z.ltb_ge in E. cbn [fst snd Directory.capacity Directory.data].
      repeat split; try discriminate; try lia.
      * rewrite length_app, Nat2Z.inj_add, Hl. lia.
      * eexists. split; [reflexivity|exact Hl].
  - induction es as [|[[[ino off] kind] name] es IH] in d, Hd |- *; intros Hfit.
    + cbn in Hfit |- *. split; [reflexivity|]. intros ino off kind name.
      rewrite add_spec. pose proof (aligned_entry_size_bounds name).
      destruct (_ >? _) eqn:E; [reflexivity|].
      rewrite Z.gtb_ltb, Z.ltb_ge in E. lia.
    + rewrite entries_size_cons in Hfit. pose proof (entries_size_nonneg es) as Hes.
      cbn [Directory.add_all]. rewrite add_spec.
      destruct (_ >? _) eqn:E.
      { apply Z.gtb_lt in E. lia. }
      pose proof (add_entry_length ino off kind name) as Hl.
      match goal with |- context [Directory.add_all ?d1 es] =>
        specialize (IH d1); destruct (Directory.add_all d1 es) as [fulls d2] eqn:Ea end.
      cbn [Directory.data Directory.capacity fst snd] in IH |- *.
      rewrite length_app, Nat2Z.inj_add, Hl in IH.
      destruct IH as [IH1 IH2]; [lia|lia|]. split; [now rewrite IH1|exact IH2].
Qed.

(** ** Dispatcher gates *)

Lemma reply_error_bare : forall u err,
  0 <= err < 2 ^ 31 ->
  Dispatch.reply_error u err
  = [Dispatch.Sent [out_header_bytes {| oh_len := 16; oh_error := - err; oh_unique := u |}]].
Proof.
  intros u err He. unfold Dispatch.reply_error, Replies.run_terminal. cbn [Replies.send_args].
  rewrite send_some by reflexivity. cbn [Reply.drop Reply.unique Reply.sender].
  assert (Hw : wrap_i32 (- err) = - err).
  { unfold wrap_i32, signed32.
    destruct (Z.eq_dec err 0) as [->|Hne]; [reflexivity|].
    assert (Hm : (- err) mod 2 ^ 32 = 2 ^ 32 - err)
      by (symmetry; apply Z.mod_unique with (-1); lia).
    rewrite Hm. destruct (2 ^ 32 - err <? 2 ^ 31) eqn:E; [apply Z.ltb_lt in E; lia|]. lia. }
  rewrite Hw. reflexivity.
Qed.

(** C3: before INIT ([initialized = false]) a request with a recognized
    opcode other than INIT is answered with one bare EIO out-header
    ([len = 16], [error = -EIO], the request's unique) and nothing else:
    the filesystem is not called and the session is unchanged.  This holds
    for [Request::dispatch] and for the older [Session::dispatch]. *)
Theorem dispatch_before_init_eio : forall se req ir,
  Dispatch.initialized se = false ->
  let u := Dispatch.ih_unique (Dispatch.header req) in
  let eio := [Dispatch.Sent [out_header_bytes {| oh_len := 16; oh_error := - EIO;
                                                   oh_unique := u |}]] in
  (forall op, Dispatch.from_u32 (Dispatch.ih_opcode (Dispatch.header req)) = Some op ->
     op <> Dispatch.FUSE_INIT -> Dispatch.dispatch se req ir = Some (se, eio)) /\
  (forall op, Dispatch.from_u32_v0 (Dispatch.ih_opcode (Dispatch.header req)) = Some op ->
     op <> Dispatch.FUSE_INIT -> Dispatch.dispatch_v0 se req ir = Some (se, eio)).
Proof.
  intros se req ir Hi u eio. subst u eio.
  rewrite <- reply_error_bare by (unfold EIO; lia).
  split; intros op Hop Hne.
  - unfold Dispatch.dispatch. rewrite Hop.
    destruct op; try congruence; cbn [Dispatch.is_init negb]; rewrite Hi; reflexivity.
  - unfold Dispatch.dispatch_v0, Dispatch.send_reply_error. rewrite Hop.
    destruct op; try congruence; cbn [Dispatch.is_init negb]; rewrite Hi; reflexivity.
Qed.

Lemma fetch_init_in_bytes : forall a rest,
  0 <= Dispatch.major a < 2 ^ 32 -> 0 <= Dispatch.minor a < 2 ^ 32 ->
  0 <= Dispatch.max_readahead a < 2 ^ 32 -> 0 <= Dispatch.flags a < 2 ^ 32 ->
  Dispatch.fetch_init_in (Dispatch.fuse_init_in_bytes a ++ rest) = Some a.
Proof.
  intros [ma mi ra fl] rest H1 H2 H3 H4. cbn [Dispatch.major Dispatch.minor
    Dispatch.max_readahead Dispatch.flags] in *.
  unfold Dispatch.fetch_init_in, Dispatch.fuse_init_in_bytes. cbv beta zeta.
  cbn [Dispatch.major Dispatch.minor Dispatch.max_readahead Dispatch.flags].
  rewrite !length_app, !le_bytes_length.
  replace (Nat.ltb _ 16) with false by (symmetry; apply Nat.ltb_ge; lia).
  rewrite <- !app_assoc.
  change (skipn 0 ?l) with l.
  rewrite (firstn_prefix _ _ 4) by apply le_bytes_length.
  rewrite (skipn_prefix _ _ 4) by apply le_bytes_length.
  rewrite (firstn_prefix _ _ 4) by apply le_bytes_length.
  rewrite (app_assoc (le_bytes 4 ma)), (skipn_prefix _ _ 8)
    by (rewrite length_app, !le_bytes_length; reflexivity).
  rewrite (firstn_prefix _ _ 4) by apply le_bytes_length.
  rewrite (app_assoc (le_bytes 4 ma ++ le_bytes 4 mi)), (skipn_prefix _ _ 12)
    by (rewrite !length_app, !le_bytes_length; reflexivity).
  rewrite (firstn_prefix _ _ 4) by apply le_bytes_length.
  rewrite !le_value_le_bytes. change (8 * Z.of_nat 4) with 32.
  rewrite !Z.mod_small by lia. reflexivity.
Qed.

(** C4 (counterexample): in a destroyed, initialized session a second
    DESTROY is not answered with EIO: [destroy] is called again and the
    reply is an empty success ([error = 0]). *)
Lemma dispatch_after_destroy_counterexample :
  let se := {| Dispatch.proto_major := 7; Dispatch.proto_minor := 26;
               Dispatch.initialized := true; Dispatch.destroyed := true |} in
  let req := {| Dispatch.header :=
                  {| Dispatch.ih_len := 40; Dispatch.ih_opcode := 38; Dispatch.ih_unique := 9;
                     Dispatch.ih_nodeid := 0; Dispatch.ih_uid := 0; Dispatch.ih_gid := 0;
                     Dispatch.ih_pid := 0; Dispatch.ih_padding := 0 |};
                Dispatch.payload := [] |} in
  Dispatch.dispatch se req None
  = Some (se, [Dispatch.CallDestroy;
               Dispatch.Sent [out_header_bytes {| oh_len := 16; oh_error := 0; oh_unique := 9 |}]])
  /\ ~ (exists se', Dispatch.dispatch se req None = Some (se', Dispatch.reply_error 9 EIO)).
Proof.
  split; [reflexivity|]. intros [se' H]. vm_compute in H. congruence.
Qed.

(** C4 (amended): when the destroyed flag is set, every recognized opcode
    other than INIT and DESTROY gets one bare EIO out-header and no call into
    the filesystem (both dispatchers); DESTROY in an initialized session is
    still handled (destroy is called, empty success reply) and INIT with a
    supported ABI is still handled by the init handshake. *)
Theorem dispatch_after_destroy_eio : forall se req ir,
  Dispatch.destroyed se = true ->
  let u := Dispatch.ih_unique (Dispatch.header req) in
  let eio := [Dispatch.Sent [out_header_bytes {| oh_len := 16; oh_error := - EIO;
                                                   oh_unique := u |}]] in
  (forall op, Dispatch.from_u32 (Dispatch.ih_opcode (Dispatch.header req)) = Some op ->
     op <> Dispatch.FUSE_INIT -> op <> Dispatch.FUSE_DESTROY ->
     Dispatch.dispatch se req ir = Some (se, eio)) /\
  (forall op, Dispatch.from_u32_v0 (Dispatch.ih_opcode (Dispatch.header req)) = Some op ->
     op <> Dispatch.FUSE_INIT -> op <> Dispatch.FUSE_DESTROY ->
     Dispatch.dispatch_v0 se req ir = Some (se, eio)) /\
  (Dispatch.ih_opcode (Dispatch.header req) = 38 -> Dispatch.initialized se = true ->
     exists se' m, Dispatch.dispatch se req ir = Some (se', [Dispatch.CallDestroy; Dispatch.Sent m])
                   /\ m = [out_header_bytes {| oh_len := 16; oh_error := 0; oh_unique := u |}]) /\
  (forall arg rest,
     Dispatch.ih_opcode (Dispatch.header req) = 26 ->
     Dispatch.payload req = Dispatch.fuse_init_in_bytes arg ++ rest ->
     0 <= Dispatch.major arg < 2 ^ 32 -> 0 <= Dispatch.minor arg < 2 ^ 32 ->
     0 <= Dispatch.max_readahead arg < 2 ^ 32 -> 0 <= Dispatch.flags arg < 2 ^ 32 ->
     (7 < Dispatch.major arg \/ (Dispatch.major arg = 7 /\ 6 <= Dispatch.minor arg)) ->
     exists se' evs, Dispatch.dispatch se req None = Some (se', Dispatch.CallInit :: evs)
                     /\ Dispatch.initialized se' = true).
Proof.
  intros se req ir Hd u eio. subst u eio.
  rewrite <- reply_error_bare by (unfold EIO; lia).
  split; [|split; [|split]].
  - intros op Hop Hi Hde. unfold Dispatch.dispatch. rewrite Hop.
    destruct (Dispatch.initialized se) eqn:Hini;
      destruct op; try congruence; cbn [Dispatch.is_init Dispatch.is_destroy negb];
      rewrite ?Hini, ?Hd; reflexivity.
  - intros op Hop Hi Hde. unfold Dispatch.dispatch_v0, Dispatch.send_reply_error. rewrite Hop.
    destruct (Dispatch.initialized se) eqn:Hini;
      destruct op; try congruence; cbn [Dispatch.is_init Dispatch.is_destroy negb];
      rewrite ?Hini, ?Hd; reflexivity.
  - intros Hop Hini. unfold Dispatch.dispatch. rewrite Hop. cbn [Dispatch.from_u32
      Dispatch.is_init Dispatch.is_destroy negb]. rewrite Hini.
    do 2 eexists. split; [reflexivity|]. reflexivity.
  - intros arg rest Hop Hp H1 H2 H3 H4 Hv. unfold Dispatch.dispatch. rewrite Hop, Hp.
    cbn [Dispatch.from_u32 Dispatch.is_init]. rewrite fetch_init_in_bytes by assumption.
    replace ((Dispatch.major arg <? 7) || ((Dispatch.major arg =? 7) && (Dispatch.minor arg <? 6)))
      with false.
    + do 2 eexists. split; [reflexivity|reflexivity].
    + symmetry. apply orb_false_iff. split; [apply Z.ltb_ge; lia|].
      apply andb_false_iff. destruct (Z.eq_dec (Dispatch.major arg) 7).
      * right. apply Z.ltb_ge. lia.
      * left. apply Z.eqb_neq. exact n.
Qed.

(** The INIT handshake of [request.rs] refuses every ABI below 7.6 with a
    bare EPROTO reply, leaves the session unchanged and does not call
    [init]. *)
Lemma dispatch_rejects_old_abi : forall se hdr arg rest ir,
  Dispatch.ih_opcode hdr = 26 ->
  0 <= Dispatch.major arg < 2 ^ 32 -> 0 <= Dispatch.minor arg < 2 ^ 32 ->
  0 <= Dispatch.max_readahead arg < 2 ^ 32 -> 0 <= Dispatch.flags arg < 2 ^ 32 ->
  (Dispatch.major arg < 7 \/ (Dispatch.major arg = 7 /\ Dispatch.minor arg < 6)) ->
  Dispatch.dispatch se {| Dispatch.header := hdr;
                          Dispatch.payload := Dispatch.fuse_init_in_bytes arg ++ rest |} ir
  = Some (se, [Dispatch.Sent [out_header_bytes {| oh_len := 16; oh_error := - EPROTO;
                                                  oh_unique := Dispatch.ih_unique hdr |}]]).
Proof.
  intros se hdr arg rest ir Hop H1 H2 H3 H4 Hv. unfold Dispatch.dispatch.
  cbn [Dispatch.header Dispatch.payload]. rewrite Hop.
  cbn [Dispatch.from_u32 Dispatch.is_init]. rewrite fetch_init_in_bytes by assumption.
  replace ((Dispatch.major arg <? 7) || ((Dispatch.major arg =? 7) && (Dispatch.minor arg <? 6)))
    with true.
  - rewrite reply_error_bare by (unfold EPROTO; lia). reflexivity.
  - symmetry. destruct Hv as [Hv|[Hv Hw]].
    + apply orb_true_iff. left. apply Z.ltb_lt. exact Hv.
    + apply orb_true_iff. right. apply andb_true_iff.
      split; [apply Z.eqb_eq | apply Z.ltb_lt]; assumption.
Qed.

(** C5 (code bug): the older [Session::dispatch] of [session.rs] tests
    [major < 7 || (major < 7 && minor < 6)], so an INIT announcing ABI 7.5
    is accepted: [init] is called, the session becomes initialized and the
    reply carries our ABI, whereas the [request.rs] dispatcher answers
    EPROTO and leaves the session uninitialized. *)
Theorem session_dispatch_accepts_abi_7_5 :
  let se := {| Dispatch.proto_major := 0; Dispatch.proto_minor := 0;
               Dispatch.initialized := false; Dispatch.destroyed := false |} in
  let arg := {| Dispatch.major := 7; Dispatch.minor := 5;
                Dispatch.max_readahead := 0; Dispatch.flags := 0 |} in
  let req := {| Dispatch.header :=
                  {| Dispatch.ih_len := 56; Dispatch.ih_opcode := 26; Dispatch.ih_unique := 1;
                     Dispatch.ih_nodeid := 0; Dispatch.ih_uid := 0; Dispatch.ih_gid := 0;
                     Dispatch.ih_pid := 0; Dispatch.ih_padding := 0 |};
                Dispatch.payload := Dispatch.fuse_init_in_bytes arg |} in
  (exists se' evs, Dispatch.dispatch_v0 se req None = Some (se', Dispatch.CallInit :: evs)
                   /\ Dispatch.initialized se' = true
                   /\ Dispatch.proto_major se' = 7 /\ Dispatch.proto_minor se' = 5)
  /\ Dispatch.dispatch se req None
     = Some (se, [Dispatch.Sent [out_header_bytes {| oh_len := 16; oh_error := - EPROTO;
                                                     oh_unique := 1 |}]]).
Proof.
  split.
  - do 2 eexists. split; [vm_compute; reflexivity|]. repeat split; reflexivity.
  - vm_compute. reflexivity.
Qed.

Lemma request_new_spec : forall buf req,
  Dispatch.request_new buf = Some req <->
  (40 <= length buf)%nat /\
  Dispatch.ih_len (Dispatch.read_in_header buf) <= Z.of_nat (length buf) /\
  req = {| Dispatch.header := Dispatch.read_in_header buf;
           Dispatch.payload := skipn 40 buf |}.
Proof.
  intros buf req. unfold Dispatch.request_new, Dispatch.size_of_fuse_in_header.
  cbn [Dispatch.header].
  destruct (Nat.ltb_spec (length buf) 40) as [Hl|Hl].
  - split; [discriminate | lia].
  - destruct (Z.ltb_spec (Z.of_nat (length buf)) (Dispatch.ih_len (Dispatch.read_in_header buf)))
      as [Hh|Hh].
    + split; [discriminate | lia].
    + split.
      * intros H. injection H as <-. repeat split; assumption.
      * intros (_ & _ & ->). reflexivity.
Qed.

(** C8 (counterexample): [Request::new] only refuses a buffer shorter than
    the header's [len]; a 48-byte buffer whose header says [len = 40] is
    accepted, and its payload (8 bytes) is longer than [len - 40]. *)
Lemma request_new_counterexample :
  let buf := le_bytes 4 40 ++ repeat 0 44 in
  length buf = 48%nat /\ Dispatch.ih_len (Dispatch.read_in_header buf) = 40 /\
  exists req, Dispatch.request_new buf = Some req /\ length (Dispatch.payload req) = 8%nat.
Proof.
  split; [reflexivity|]. split; [vm_compute; reflexivity|].
  eexists. split; [vm_compute; reflexivity | reflexivity].
Qed.

(** C8 (amended): [Request::new] yields a request exactly when the buffer
    holds at least the 40-byte [fuse_in_header] and the header's [len] is at
    most the buffer length; its header is the first 40 bytes and its payload
    the rest.  A rejected buffer makes the [fuse] crate's session loop stop
    with [Ok(())], dispatching nothing for it. *)
Theorem request_new_accepts : forall buf,
  (forall req, Dispatch.request_new buf = Some req <->
     (40 <= length buf)%nat /\
     Dispatch.ih_len (Dispatch.read_in_header buf) <= Z.of_nat (length buf) /\
     req = {| Dispatch.header := Dispatch.read_in_header buf;
              Dispatch.payload := skipn 40 buf |}) /\
  (Dispatch.request_new buf = None -> forall rest, Loop.run (Loop.RecvOk buf :: rest) = (Loop.RunOk, [])).
Proof.
  intros buf. split.
  - intros req. apply request_new_spec.
  - intros H rest. cbn [Loop.run]. rewrite H. reflexivity.
Qed.

Lemma run_lowlevel_recv_ok : forall (Req : Type) (parse : list Z -> option Req) b rest,
  fst (Loop.run_lowlevel Req parse (Loop.RecvOk b :: rest)) = fst (Loop.run_lowlevel Req parse rest).
Proof.
  intros Req parse b rest. cbn [Loop.run_lowlevel].
  destruct (Loop.run_lowlevel Req parse rest) as [o ds]. destruct (parse b); reflexivity.
Qed.

Lemma run_recv_ok : forall b req rest,
  Dispatch.request_new b = Some req ->
  fst (Loop.run (Loop.RecvOk b :: rest)) = fst (Loop.run rest).
Proof.
  intros b req rest H. cbn [Loop.run]. rewrite H.
  destruct (Loop.run rest) as [o ds]. reflexivity.
Qed.

(** C9 (counterexample): the [fuse] crate's [Session::run] returns [Ok(())]
    without any ENODEV read: a received buffer that [Request::new] rejects
    ends the loop. *)
Lemma session_run_counterexample :
  Loop.run [Loop.RecvOk []] = (Loop.RunOk, []).
Proof. reflexivity. Qed.

(** C9 (amended): both session loops ([fuse] crate and low-level) retry the
    read on ENOENT, EINTR and EAGAIN, return [Ok(())] on ENODEV and return
    [Err(errno)] on any other errno.  The low-level loop returns [Ok(())]
    exactly when a read fails with ENODEV after only packets and retried
    errors; the [fuse] crate's loop returns [Ok(())] exactly when, after
    only accepted buffers and retried errors, a read fails with ENODEV or a
    received buffer is rejected by [Request::new]. *)
Theorem session_run_read_errors : forall (Req : Type) (parse : list Z -> option Req),
  (forall e rest, Loop.is_retry e = true ->
     Loop.run (Loop.RecvErr e :: rest) = Loop.run rest /\
     Loop.run_lowlevel Req parse (Loop.RecvErr e :: rest) = Loop.run_lowlevel Req parse rest) /\
  (forall rest,
     Loop.run (Loop.RecvErr ENODEV :: rest) = (Loop.RunOk, []) /\
     Loop.run_lowlevel Req parse (Loop.RecvErr ENODEV :: rest) = (Loop.RunOk, [])) /\
  (forall e rest, Loop.is_retry e = false -> e <> ENODEV ->
     Loop.run (Loop.RecvErr e :: rest) = (Loop.RunErr e, []) /\
     Loop.run_lowlevel Req parse (Loop.RecvErr e :: rest) = (Loop.RunErr e, [])) /\
  (forall reads, fst (Loop.run_lowlevel Req parse reads) = Loop.RunOk <->
     exists p rest, reads = p ++ Loop.RecvErr ENODEV :: rest /\
       Forall (fun r => match r with
                        | Loop.RecvOk _ => True
                        | Loop.RecvErr e => Loop.is_retry e = true
                        end) p) /\
  (forall reads, fst (Loop.run reads) = Loop.RunOk <->
     exists p x rest, reads = p ++ x :: rest /\
       Forall (fun r => match r with
                        | Loop.RecvOk b => Dispatch.request_new b <> None
                        | Loop.RecvErr e => Loop.is_retry e = true
                        end) p /\
       (x = Loop.RecvErr ENODEV \/
        exists b, x = Loop.RecvOk b /\ Dispatch.request_new b = None)).
Proof.
  intros Req parse. split; [|split; [|split; [|split]]].
  - intros e rest H. cbn [Loop.run Loop.run_lowlevel]. rewrite H. split; reflexivity.
  - intros rest. split; reflexivity.
  - intros e rest H1 H2. cbn [Loop.run Loop.run_lowlevel]. rewrite H1.
    apply Z.eqb_neq in H2. rewrite H2. split; reflexivity.
  - intros reads. split.
    + induction reads as [|[b|e] reads IH]; intros H.
      * discriminate.
      * rewrite run_lowlevel_recv_ok in H. destruct (IH H) as (p & rest & -> & Hf).
        exists (Loop.RecvOk b :: p), rest. split; [reflexivity|]. constructor; auto.
      * cbn [Loop.run_lowlevel] in H. destruct (Loop.is_retry e) eqn:Hr.
        -- destruct (IH H) as (p & rest & -> & Hf).
           exists (Loop.RecvErr e :: p), rest. split; [reflexivity|]. constructor; auto.
        -- destruct (Z.eqb_spec e ENODEV) as [->|Hn]; [|discriminate].
           exists [], reads. split; [reflexivity | constructor].
    + intros (p & rest & -> & Hf). induction p as [|[b|e] p IH].
      * reflexivity.
      * cbn [app]. rewrite run_lowlevel_recv_ok. inversion Hf; auto.
      * inversion Hf as [|? ? Hr Hf']. cbn [app Loop.run_lowlevel]. rewrite Hr. auto.
  - intros reads. split.
    + induction reads as [|[b|e] reads IH]; intros H.
      * discriminate.
      * destruct (Dispatch.request_new b) as [req|] eqn:Hb.
        -- rewrite (run_recv_ok _ _ _ Hb) in H. destruct (IH H) as (p & x & rest & -> & Hf & Hx).
           exists (Loop.RecvOk b :: p), x, rest. split; [reflexivity|]. split; [|exact Hx].
           constructor; [congruence | exact Hf].
        -- exists [], (Loop.RecvOk b), reads. split; [reflexivity|]. split; [constructor|].
           right. exists b. split; [reflexivity | exact Hb].
      * cbn [Loop.run] in H. destruct (Loop.is_retry e) eqn:Hr.
        -- destruct (IH H) as (p & x & rest & -> & Hf & Hx).
           exists (Loop.RecvErr e :: p), x, rest. split; [reflexivity|]. split; [|exact Hx].
           constructor; auto.
        -- destruct (Z.eqb_spec e ENODEV) as [->|Hn]; [|discriminate].
           exists [], (Loop.RecvErr ENODEV), reads. split; [reflexivity|].
           split; [constructor | left; reflexivity].
    + intros (p & x & rest & -> & Hf & Hx). induction p as [|[b|e] p IH].
      * destruct Hx as [->|(b & -> & Hb)].
        -- reflexivity.
        -- cbn [app Loop.run]. rewrite Hb. reflexivity.
      * inversion Hf as [|? ? Hb Hf']. destruct (Dispatch.request_new b) as [req|] eqn:Hq;
          [|congruence].
        cbn [app]. rewrite (run_recv_ok _ _ _ Hq). auto.
      * inversion Hf as [|? ? Hr Hf']. cbn [app Loop.run]. rewrite Hr. auto.
Qed.

Lemma send_msgs_writes_logged : forall os ms i,
  Channel.writes (Channel.send_msgs os i ms) = ms /\
  Channel.logged (Channel.send_msgs os i ms) = Channel.failures os i (length ms).
Proof.
  intros os. induction ms as [|m ms IH]; intros i.
  - split; reflexivity.
  - destruct (IH (S i)) as [Hw Hl]. cbn [Channel.send_msgs length Channel.failures].
    unfold Channel.writes, Channel.logged in *. rewrite !flat_map_app, Hw, Hl.
    unfold Channel.reply_sender_send, Channel.channel_sender_send.
    destruct (fst (os i) <? 0); split; reflexivity.
Qed.

(** C10: sending a reply on the channel never fails: whatever [writev]
    returns for each message, the terminal method returns [()], each message
    is written exactly once and in order (no retry), and exactly the failed
    writes are logged, with their errno. *)
Theorem reply_send_failure_logged : forall os r t ms,
  Replies.run_terminal r t = Some ms ->
  Channel.terminal_io os r t = Some (tt, Channel.send_msgs os 0 ms) /\
  Channel.writes (Channel.send_msgs os 0 ms) = ms /\
  Channel.logged (Channel.send_msgs os 0 ms) = Channel.failures os 0 (length ms) /\
  (forall os' m, fst (Channel.reply_sender_send os' m) = tt) /\
  (forall os', exists evs, Channel.terminal_io os' r t = Some (tt, evs)).
Proof.
  intros os r t ms H. unfold Channel.terminal_io. rewrite H.
  destruct (send_msgs_writes_logged os ms 0) as [Hw Hl].
  repeat split; try assumption.
  - intros os' m. destruct (fst (Channel.reply_sender_send os' m)). reflexivity.
  - intros os'. eexists. reflexivity.
Qed.

(** * Witnesses *)

Lemma reply_header_fields_witness :
  Reply.sender (Reply.new 5) = true /\
  0 <= Reply.unique (Reply.new 5) < 2 ^ 64 /\
  Replies.errno_in_range (Replies.error ENOENT) /\
  16 + Z.of_nat (length (concat (snd (Replies.send_args (Replies.error ENOENT))))) < 2 ^ 32 /\
  exists hdr,
    Replies.run_terminal (Reply.new 5) (Replies.error ENOENT)
      = Some [hdr :: snd (Replies.send_args (Replies.error ENOENT))] /\
    decode_out_header hdr
      = Some (Z.of_nat (length (concat (hdr :: snd (Replies.send_args (Replies.error ENOENT))))),
              Replies.expected_error (Replies.error ENOENT), Reply.unique (Reply.new 5)).
Proof.
  assert (H1 : Reply.sender (Reply.new 5) = true) by reflexivity.
  assert (H2 : 0 <= Reply.unique (Reply.new 5) < 2 ^ 64) by (simpl; lia).
  assert (H3 : Replies.errno_in_range (Replies.error ENOENT)) by (simpl; unfold ENOENT; lia).
  assert (H4 : 16 + Z.of_nat (length (concat (snd (Replies.send_args (Replies.error ENOENT)))))
               < 2 ^ 32) by (vm_compute; reflexivity).
  split; [exact H1|]. split; [exact H2|]. split; [exact H3|]. split; [exact H4|].
  exact (reply_header_fields (Reply.new 5) (Replies.error ENOENT) H1 H2 H3 H4).
Defined.

Lemma reply_drop_sends_eio_witness :
  Reply.sender (Replies.inner (Replies.REmpty (Reply.new 3))) = true /\
  Replies.drop_reply (Replies.REmpty (Reply.new 3))
    = [[out_header_bytes {| oh_len := 16; oh_error := - EIO; oh_unique := 3 |}]].
Proof.
  assert (H : Reply.sender (Replies.inner (Replies.REmpty (Reply.new 3))) = true) by reflexivity.
  split; [exact H|].
  exact (proj1 (reply_drop_sends_eio (Replies.REmpty (Reply.new 3)) H)).
Defined.

Lemma dispatch_before_init_eio_witness :
  Dispatch.initialized {| Dispatch.proto_major := 0; Dispatch.proto_minor := 0;
                          Dispatch.initialized := false; Dispatch.destroyed := false |} = false /\
  Dispatch.from_u32 1 = Some Dispatch.FUSE_LOOKUP /\
  Dispatch.FUSE_LOOKUP <> Dispatch.FUSE_INIT /\
  Dispatch.dispatch
    {| Dispatch.proto_major := 0; Dispatch.proto_minor := 0;
       Dispatch.initialized := false; Dispatch.destroyed := false |}
    {| Dispatch.header :=
         {| Dispatch.ih_len := 40; Dispatch.ih_opcode := 1; Dispatch.ih_unique := 4;
            Dispatch.ih_nodeid := 1; Dispatch.ih_uid := 0; Dispatch.ih_gid := 0;
            Dispatch.ih_pid := 0; Dispatch.ih_padding := 0 |};
       Dispatch.payload := [] |} None
  = Some ({| Dispatch.proto_major := 0; Dispatch.proto_minor := 0;
             Dispatch.initialized := false; Dispatch.destroyed := false |},
          [Dispatch.Sent [out_header_bytes {| oh_len := 16; oh_error := - EIO;
                                              oh_unique := 4 |}]]).
Proof.
  assert (H1 : Dispatch.initialized
                 {| Dispatch.proto_major := 0; Dispatch.proto_minor := 0;
                    Dispatch.initialized := false; Dispatch.destroyed := false |} = false)
    by reflexivity.
  assert (H2 : Dispatch.from_u32 1 = Some Dispatch.FUSE_LOOKUP) by reflexivity.
  assert (H3 : Dispatch.FUSE_LOOKUP <> Dispatch.FUSE_INIT) by discriminate.
  split; [exact H1|]. split; [exact H2|]. split; [exact H3|].
  exact (proj1 (dispatch_before_init_eio _
           {| Dispatch.header :=
                {| Dispatch.ih_len := 40; Dispatch.ih_opcode := 1; Dispatch.ih_unique := 4;
                   Dispatch.ih_nodeid := 1; Dispatch.ih_uid := 0; Dispatch.ih_gid := 0;
                   Dispatch.ih_pid := 0; Dispatch.ih_padding := 0 |};
              Dispatch.payload := [] |} None H1) Dispatch.FUSE_LOOKUP H2 H3).
Defined.

Lemma dispatch_after_destroy_eio_witness :
  Dispatch.destroyed {| Dispatch.proto_major := 7; Dispatch.proto_minor := 26;
                        Dispatch.initialized := true; Dispatch.destroyed := true |} = true /\
  Dispatch.from_u32 1 = Some Dispatch.FUSE_LOOKUP /\
  Dispatch.FUSE_LOOKUP <> Dispatch.FUSE_INIT /\
  Dispatch.FUSE_LOOKUP <> Dispatch.FUSE_DESTROY /\
  Dispatch.dispatch
    {| Dispatch.proto_major := 7; Dispatch.proto_minor := 26;
       Dispatch.initialized := true; Dispatch.destroyed := true |}
    {| Dispatch.header :=
         {| Dispatch.ih_len := 40; Dispatch.ih_opcode := 1; Dispatch.ih_unique := 4;
            Dispatch.ih_nodeid := 1; Dispatch.ih_uid := 0; Dispatch.ih_gid := 0;
            Dispatch.ih_pid := 0; Dispatch.ih_padding := 0 |};
       Dispatch.payload := [] |} None
  = Some ({| Dispatch.proto_major := 7; Dispatch.proto_minor := 26;
             Dispatch.initialized := true; Dispatch.destroyed := true |},
          [Dispatch.Sent [out_header_bytes {| oh_len := 16; oh_error := - EIO;
                                              oh_unique := 4 |}]]).
Proof.
  assert (H1 : Dispatch.destroyed
                 {| Dispatch.proto_major := 7; Dispatch.proto_minor := 26;
                    Dispatch.initialized := true; Dispatch.destroyed := true |} = true)
    by reflexivity.
  assert (H2 : Dispatch.from_u32 1 = Some Dispatch.FUSE_LOOKUP) by reflexivity.
  assert (H3 : Dispatch.FUSE_LOOKUP <> Dispatch.FUSE_INIT) by discriminate.
  assert (H4 : Dispatch.FUSE_LOOKUP <> Dispatch.FUSE_DESTROY) by discriminate.
  split; [exact H1|]. split; [exact H2|]. split; [exact H3|]. split; [exact H4|].
  exact (proj1 (dispatch_after_destroy_eio _
           {| Dispatch.header :=
                {| Dispatch.ih_len := 40; Dispatch.ih_opcode := 1; Dispatch.ih_unique := 4;
                   Dispatch.ih_nodeid := 1; Dispatch.ih_uid := 0; Dispatch.ih_gid := 0;
                   Dispatch.ih_pid := 0; Dispatch.ih_padding := 0 |};
              Dispatch.payload := [] |} None H1) Dispatch.FUSE_LOOKUP H2 H3 H4).
Defined.

Lemma directory_add_capacity_witness :
  Z.of_nat (length (Directory.data
    {| Directory.reply := Reply.new 1; Directory.size := 0; Directory.data := [];
       Directory.capacity := 32 |}))
  <= Directory.capacity
       {| Directory.reply := Reply.new 1; Directory.size := 0; Directory.data := [];
          Directory.capacity := 32 |} /\
  Z.of_nat (length (Directory.data
    {| Directory.reply := Reply.new 1; Directory.size := 0; Directory.data := [];
       Directory.capacity := 32 |}))
  + entries_size [(1, 1, Directory.RegularFile, [97])]
  = Directory.capacity
      {| Directory.reply := Reply.new 1; Directory.size := 0; Directory.data := [];
         Directory.capacity := 32 |} /\
  fst (Directory.add_all
         {| Directory.reply := Reply.new 1; Directory.size := 0; Directory.data := [];
            Directory.capacity := 32 |} [(1, 1, Directory.RegularFile, [97])]) = [false].
Proof.
  assert (H1 : Z.of_nat (length (Directory.data
    {| Directory.reply := Reply.new 1; Directory.size := 0; Directory.data := [];
       Directory.capacity := 32 |}))
  <= Directory.capacity
       {| Directory.reply := Reply.new 1; Directory.size := 0; Directory.data := [];
          Directory.capacity := 32 |}) by (simpl; lia).
  assert (H2 : Z.of_nat (length (Directory.data
    {| Directory.reply := Reply.new 1; Directory.size := 0; Directory.data := [];
       Directory.capacity := 32 |}))
  + entries_size [(1, 1, Directory.RegularFile, [97])]
  = Directory.capacity
      {| Directory.reply := Reply.new 1; Directory.size := 0; Directory.data := [];
         Directory.capacity := 32 |}) by (vm_compute; reflexivity).
  split; [exact H1|]. split; [exact H2|].
  exact (proj1 (proj2 (directory_add_capacity _ H1) _ H2)).
Defined.

Lemma request_new_accepts_witness :
  Dispatch.request_new [] = None /\
  Loop.run [Loop.RecvOk []; Loop.RecvErr ENODEV] = (Loop.RunOk, []).
Proof.
  assert (H : Dispatch.request_new [] = None) by reflexivity.
  split; [exact H|].
  exact (proj2 (request_new_accepts []) H [Loop.RecvErr ENODEV]).
Defined.

Lemma session_run_read_errors_witness :
  Loop.is_retry EIO = false /\ EIO <> ENODEV /\
  Loop.run (Loop.RecvErr EIO :: [Loop.RecvErr ENODEV]) = (Loop.RunErr EIO, []).
Proof.
  assert (H1 : Loop.is_retry EIO = false) by reflexivity.
  assert (H2 : EIO <> ENODEV) by discriminate.
  split; [exact H1|]. split; [exact H2|].
  exact (proj1 (proj1 (proj2 (proj2 (session_run_read_errors Dispatch.Request
           Dispatch.request_new))) EIO [Loop.RecvErr ENODEV] H1 H2)).
Defined.

Lemma reply_send_failure_logged_witness :
  Replies.run_terminal (Reply.new 7) Replies.empty_ok
    = Some [[out_header_bytes {| oh_len := 16; oh_error := 0; oh_unique := 7 |}]] /\
  Channel.logged (Channel.send_msgs (fun _ => (-1, EIO)) 0
    [[out_header_bytes {| oh_len := 16; oh_error := 0; oh_unique := 7 |}]]) = [EIO].
Proof.
  assert (H : Replies.run_terminal (Reply.new 7) Replies.empty_ok
    = Some [[out_header_bytes {| oh_len := 16; oh_error := 0; oh_unique := 7 |}]])
    by reflexivity.
  split; [exact H|].
  destruct (reply_send_failure_logged (fun _ => (-1, EIO)) _ _ _ H) as (_ & _ & Hl & _).
  rewrite Hl. reflexivity.
Defined.

(** * Further properties of the code *)

(** ** Setattr arguments *)



(** ** Mount arguments and unmounting *)

Lemma cstring_new_none : forall s, Mount.cstring_new s = None <-> In 0 s.
Proof.
  intros s. unfold Mount.cstring_new.
  split.
  - destruct (existsb (Z.eqb 0) s) eqn:E; [|discriminate]. intros _.
    apply existsb_exists in E. destruct E as (x & Hx & Hx0). apply Z.eqb_eq in Hx0.
    subst x. exact Hx.
  - intros H. replace (existsb (Z.eqb 0) s) with true; [reflexivity|].
    symmetry. apply existsb_exists. exists 0. split; [exact H | reflexivity].
Qed.

Lemma cstring_new_some : forall s, ~ In 0 s -> Mount.cstring_new s = Some s.
Proof.
  intros s H. destruct (Mount.cstring_new s) eqn:E.
  - unfold Mount.cstring_new in E. destruct (existsb (Z.eqb 0) s); congruence.
  - apply cstring_new_none in E. contradiction.
Qed.

Lemma all_some_cstrings : forall l,
  (Exists (fun o => In 0 o) l -> Mount.all_some (map Mount.cstring_new l) = None) /\
  ((forall o, In o l -> ~ In 0 o) -> Mount.all_some (map Mount.cstring_new l) = Some l).
Proof.
  induction l as [|o l IH]; split.
  - intros H. inversion H.
  - intros _. reflexivity.
  - intros H. cbn [map Mount.all_some]. inversion H as [? ? H0|? ? H1]; subst.
    + apply cstring_new_none in H0. rewrite H0. reflexivity.
    + destruct (Mount.cstring_new o); [|reflexivity]. rewrite (proj1 IH H1). reflexivity.
  - intros H. cbn [map Mount.all_some].
    rewrite cstring_new_some by (apply H; left; reflexivity).
    rewrite (proj2 IH) by (intros o' Ho'; apply H; right; exact Ho'). reflexivity.
Qed.

Lemma fuse_args_spec : forall prog options,
  ~ In 0 (bytes_of_string prog) ->
  (Mount.fuse_args prog options = None <-> Exists (fun o => In 0 o) options) /\
  ((forall o, In o options -> ~ In 0 o) ->
   Mount.fuse_args prog options
   = Some (wrap_i32 (Z.of_nat (S (length options))), bytes_of_string prog :: options)).
Proof.
  intros prog options Hp. unfold Mount.fuse_args. cbn [map].
  rewrite cstring_new_some by exact Hp. cbn [Mount.all_some]. split.
  - split.
    + intros H. destruct (Exists_dec (fun o => In 0 o) options) as [E|E].
      * intros o. apply In_dec. exact Z.eq_dec.
      * exact E.
      * exfalso. rewrite (proj2 (all_some_cstrings options)) in H; [discriminate|].
        intros o Ho Ho0. apply E. apply Exists_exists. exists o. split; assumption.
    + intros H. rewrite (proj1 (all_some_cstrings options) H). reflexivity.
  - intros H. rewrite (proj2 (all_some_cstrings options) H). reflexivity.
Qed.

(** Both mount paths build [argc = 1 + number of options] and the argument
    vector "rust-fuse" (resp. "fuse-rs") followed by the options in order;
    an option holding a NUL byte makes the [unwrap] panic instead. *)
Theorem mount_args_vector : forall options,
  (Mount.with_fuse_args options = None <-> Exists (fun o => In 0 o) options) /\
  (Mount.lowlevel_mount_args options = None <-> Exists (fun o => In 0 o) options) /\
  ((forall o, In o options -> ~ In 0 o) ->
   Mount.with_fuse_args options
   = Some (wrap_i32 (Z.of_nat (S (length options))), bytes_of_string "rust-fuse" :: options) /\
   Mount.lowlevel_mount_args options
   = Some (wrap_i32 (Z.of_nat (S (length options))), bytes_of_string "fuse-rs" :: options)).
Proof.
  intros options.
  assert (H1 : ~ In 0 (bytes_of_string "rust-fuse")) by (simpl; intuition discriminate).
  assert (H2 : ~ In 0 (bytes_of_string "fuse-rs")) by (simpl; intuition discriminate).
  destruct (fuse_args_spec _ options H1) as [A1 B1].
  destruct (fuse_args_spec _ options H2) as [A2 B2].
  split; [exact A1|]. split; [exact A2|]. intros H. split; [apply B1 | apply B2]; exact H.
Qed.


(** ** Session loops *)

(** The older [Session::run] never returns an error: a buffer shorter than
    a [fuse_in_header] and any read errno other than ENOENT, EINTR, EAGAIN
    and ENODEV end the task with a panic, and every buffer it dispatches
    holds a full header. *)
Theorem run_v0_panics : forall reads,
  (forall b rest, (length b < 40)%nat ->
     LoopV0.run_v0 (Loop.RecvOk b :: rest) = (LoopV0.Panicked, [])) /\
  (forall e rest, Loop.is_retry e = false -> e <> ENODEV ->
     LoopV0.run_v0 (Loop.RecvErr e :: rest) = (LoopV0.Panicked, [])) /\
  Forall (fun b => (40 <= length b)%nat) (snd (LoopV0.run_v0 reads)).
Proof.
  intros reads. split; [|split].
  - intros b rest Hb. cbn [LoopV0.run_v0]. unfold Dispatch.size_of_fuse_in_header.
    replace (length b <? 40)%nat with true by (symmetry; apply Nat.ltb_lt; lia). reflexivity.
  - intros e rest H1 H2. cbn [LoopV0.run_v0]. unfold Loop.is_retry in H1. rewrite H1.
    apply Z.eqb_neq in H2. rewrite H2. reflexivity.
  - induction reads as [|[b|e] reads IH]; cbn [LoopV0.run_v0].
    + constructor.
    + unfold Dispatch.size_of_fuse_in_header.
      destruct (Nat.ltb_spec (length b) 40) as [Hb|Hb]; [constructor|].
      destruct (LoopV0.run_v0 reads) as [o ds]. constructor; assumption.
    + destruct ((e =? ENOENT) || (e =? EINTR) || (e =? EAGAIN)); [exact IH|].
      destruct (e =? ENODEV); constructor.
Qed.

(** The session loops compose over their reads: while the loop is still
    running after [reads1], running it on [reads1 ++ reads2] dispatches the
    requests of [reads1] and then those of [reads2], and ends as on
    [reads2]; once it has ended, later reads are never looked at.  In the
    low-level loop a packet that does not parse is skipped. *)
Theorem session_loops_compose : forall (Req : Type) (parse : list Z -> option Req) reads1 reads2,
  (fst (Loop.run reads1) = Loop.Pending ->
     Loop.run (reads1 ++ reads2)
     = (fst (Loop.run reads2), snd (Loop.run reads1) ++ snd (Loop.run reads2))) /\
  (fst (Loop.run reads1) <> Loop.Pending -> Loop.run (reads1 ++ reads2) = Loop.run reads1) /\
  (fst (Loop.run_lowlevel Req parse reads1) = Loop.Pending ->
     Loop.run_lowlevel Req parse (reads1 ++ reads2)
     = (fst (Loop.run_lowlevel Req parse reads2),
        snd (Loop.run_lowlevel Req parse reads1) ++ snd (Loop.run_lowlevel Req parse reads2))) /\
  (fst (Loop.run_lowlevel Req parse reads1) <> Loop.Pending ->
     Loop.run_lowlevel Req parse (reads1 ++ reads2) = Loop.run_lowlevel Req parse reads1) /\
  (forall b, parse b = None ->
     Loop.run_lowlevel Req parse (Loop.RecvOk b :: reads2) = Loop.run_lowlevel Req parse reads2).
Proof.
  intros Req parse reads1 reads2. split; [|split; [|split; [|split]]].
  - induction reads1 as [|[b|e] reads1 IH]; intros H.
    + cbn [app Loop.run]. destruct (Loop.run reads2); reflexivity.
    + cbn [app Loop.run] in *. destruct (Dispatch.request_new b); [|discriminate].
      destruct (Loop.run reads1) as [o ds] eqn:E. cbn [fst snd] in *.
      rewrite (IH H). reflexivity.
    + cbn [app Loop.run] in *. destruct (Loop.is_retry e); [exact (IH H)|].
      destruct (e =? ENODEV); discriminate.
  - induction reads1 as [|[b|e] reads1 IH]; intros H.
    + cbn in H. congruence.
    + cbn [app Loop.run] in *. destruct (Dispatch.request_new b); [|reflexivity].
      destruct (Loop.run reads1) as [o ds] eqn:E. cbn [fst] in H.
      rewrite (IH H). reflexivity.
    + cbn [app Loop.run] in *. destruct (Loop.is_retry e); [exact (IH H)|].
      destruct (e =? ENODEV); reflexivity.
  - induction reads1 as [|[b|e] reads1 IH]; intros H.
    + cbn [app Loop.run_lowlevel]. destruct (Loop.run_lowlevel Req parse reads2); reflexivity.
    + cbn [app Loop.run_lowlevel] in *.
      destruct (Loop.run_lowlevel Req parse reads1) as [o ds] eqn:E.
      assert (Ho : o = Loop.Pending) by (destruct (parse b); exact H).
      rewrite (IH Ho). destruct (parse b); reflexivity.
    + cbn [app Loop.run_lowlevel] in *. destruct (Loop.is_retry e); [exact (IH H)|].
      destruct (e =? ENODEV); discriminate.
  - induction reads1 as [|[b|e] reads1 IH]; intros H.
    + cbn in H. congruence.
    + cbn [app Loop.run_lowlevel] in *.
      destruct (Loop.run_lowlevel Req parse reads1) as [o ds] eqn:E.
      assert (Ho : o <> Loop.Pending) by (destruct (parse b); exact H).
      rewrite (IH Ho). reflexivity.
    + cbn [app Loop.run_lowlevel] in *. destruct (Loop.is_retry e); [exact (IH H)|].
      destruct (e =? ENODEV); reflexivity.
  - intros b Hb. cbn [Loop.run_lowlevel]. rewrite Hb.
    destruct (Loop.run_lowlevel Req parse reads2); reflexivity.
Qed.

(** ** Spliced requests *)

Lemma read_in_header_firstn : forall k l, (40 <= k)%nat ->
  Dispatch.read_in_header (firstn k l) = Dispatch.read_in_header l.
Proof.
  intros k l Hk. unfold Dispatch.read_in_header.
  assert (F : forall o n, (o + n <= 40)%nat ->
            firstn n (skipn o (firstn k l)) = firstn n (skipn o l)).
  { intros o n Hon. rewrite skipn_firstn_comm, firstn_firstn.
    f_equal. lia. }
  rewrite !F by lia. reflexivity.
Qed.

Lemma firstn_app_le : forall (a b : list Z) n, (n <= length a)%nat ->
  firstn n (a ++ b) = firstn n a.
Proof.
  intros a b n H. rewrite firstn_app.
  replace (n - length a)%nat with 0%nat by lia. rewrite app_nil_r. reflexivity.
Qed.

Lemma write_at_0 : forall buf bs, (length bs <= length buf)%nat ->
  Splice.write_at buf 0 bs = bs ++ skipn (length bs) buf.
Proof. intros buf bs H. reflexivity. Qed.

(** A spliced request shorter than a [fuse_in_header] is refused without
    reading the pipe.  One shorter than [read_limit] (4176 bytes) is read in
    one go into the whole buffer; when the pipe holds the request (at least
    [size] bytes, at most the buffer) it is accepted exactly when the
    header's [len] equals [size], with the bytes after the header up to
    [size] as payload and no [source_fd]. *)
Theorem splice_small_requests : forall buffer fd size r1 r2,
  ((size < 40)%nat -> Splice.new_splice_write buffer fd size r1 r2 = (Splice.SNone, [])) /\
  (forall bytes, r1 = Splice.PipeOk bytes ->
     (40 <= size)%nat -> (size < 4176)%nat -> (size < length buffer)%nat ->
     (size <= length bytes)%nat -> (length bytes <= length buffer)%nat ->
     Splice.new_splice_write buffer fd size r1 r2
     = (if Dispatch.ih_len (Dispatch.read_in_header bytes) =? Z.of_nat size
        then Splice.SSome {| Splice.sheader := Dispatch.read_in_header bytes;
                             Splice.sdata := skipn 40 (firstn size bytes);
                             Splice.source_fd := None |}
        else Splice.SNone,
        [(0%nat, length buffer)])).
Proof.
  intros buffer fd size r1 r2. split.
  - intros H. unfold Splice.new_splice_write, Dispatch.size_of_fuse_in_header.
    replace (size <? 40)%nat with true by (symmetry; apply Nat.ltb_lt; lia). reflexivity.
  - intros bytes -> H1 H2 H3 H4 H5.
    unfold Splice.new_splice_write, Dispatch.size_of_fuse_in_header.
    replace (size <? 40)%nat with false by (symmetry; apply Nat.ltb_ge; lia).
    replace (size <? Splice.read_limit)%nat with true
      by (symmetry; apply Nat.ltb_lt; unfold Splice.read_limit, Splice.request_write_header_size,
      Splice.size_of_fuse_write_in, Splice.PAGE_SIZE, Dispatch.size_of_fuse_in_header; lia).
    unfold Splice.read_request.
    replace (size <? length buffer)%nat with true by (symmetry; apply Nat.ltb_lt; lia).
    replace (length buffer <? 0)%nat with false by (symmetry; apply Nat.ltb_ge; lia).
    cbn [negb]. rewrite Nat.sub_0_r, (firstn_all2 bytes) by exact H5.
    rewrite write_at_0 by exact H5. rewrite firstn_app_le by exact H4.
    unfold Splice.parse_slice, Dispatch.size_of_fuse_in_header.
    rewrite firstn_length_le by exact H4.
    replace (size <? 40)%nat with false by (symmetry; apply Nat.ltb_ge; lia).
    cbn [Splice.sheader]. rewrite read_in_header_firstn by exact H1.
    rewrite (Z.eqb_sym (Z.of_nat size)).
  destruct (Dispatch.ih_len (Dispatch.read_in_header bytes) =? Z.of_nat size); reflexivity.
Qed.

(** A WRITE request of at least [read_limit] bytes: only the header and the
    [fuse_write_in] (80 bytes) are read from the pipe; the request is
    accepted with the pipe as [source_fd], whatever the header's [len] says,
    and its payload is the [fuse_write_in] followed by what the buffer held
    before (the written data stays in the pipe). *)
Theorem splice_large_write : forall buffer fd size bytes r2,
  (4176 <= size)%nat -> (80 <= length buffer)%nat -> (80 <= length bytes)%nat ->
  Dispatch.from_u32 (Dispatch.ih_opcode (Dispatch.read_in_header bytes)) = Some Dispatch.FUSE_WRITE ->
  Splice.new_splice_write buffer fd size (Splice.PipeOk bytes) r2
  = (Splice.SSome {| Splice.sheader := Dispatch.read_in_header bytes;
                     Splice.sdata := skipn 40 (firstn 80 bytes) ++ skipn 80 buffer;
                     Splice.source_fd := Some fd |},
     [(0%nat, 80%nat)]).
Proof.
  intros buffer fd size bytes r2 H1 H2 H3 Hop.
  assert (Hl : length (firstn 80 bytes) = 80%nat) by (apply firstn_length_le; exact H3).
  assert (Hh : Dispatch.read_in_header (firstn 80 bytes ++ skipn 80 buffer)
               = Dispatch.read_in_header bytes).
  { rewrite <- (read_in_header_firstn 80 (firstn 80 bytes ++ skipn 80 buffer)) by lia.
    rewrite firstn_app_le by lia. rewrite firstn_firstn. cbn [Nat.min].
    apply read_in_header_firstn. lia. }
  unfold Splice.new_splice_write, Dispatch.size_of_fuse_in_header.
  replace (size <? 40)%nat with false by (symmetry; apply Nat.ltb_ge; lia).
  replace (size <? Splice.read_limit)%nat with false
    by (symmetry; apply Nat.ltb_ge; unfold Splice.read_limit, Splice.request_write_header_size,
      Splice.size_of_fuse_write_in, Splice.PAGE_SIZE, Dispatch.size_of_fuse_in_header; lia).
  unfold Splice.request_write_header_size, Splice.size_of_fuse_write_in,
    Dispatch.size_of_fuse_in_header; cbn [Nat.add].
  replace (length buffer <? 80)%nat with false by (symmetry; apply Nat.ltb_ge; lia).
  rewrite Hl. cbn [Nat.ltb Nat.leb].
  rewrite write_at_0 by lia. rewrite Hl, Hh, Hop. cbn [Splice.is_write negb].
  unfold Splice.parse_slice, Dispatch.size_of_fuse_in_header.
  rewrite length_app, Hl.
  replace (80 + length (skipn 80 buffer) <? 40)%nat with false
    by (symmetry; apply Nat.ltb_ge; lia).
  rewrite Hh, skipn_app, Hl. replace (40 - 80)%nat with 0%nat by reflexivity.
  reflexivity.
Qed.

(** A request of at least [read_limit] bytes that is not a WRITE: after the
    80-byte read, the rest is read into the buffer behind those bytes and
    the request is accepted exactly when the header's [len] equals [size],
    without [source_fd]. *)
Theorem splice_large_other : forall buffer fd size bytes1 bytes2,
  (4176 <= size)%nat -> (size < length buffer)%nat ->
  (80 <= length bytes1)%nat ->
  (size - 80 <= length bytes2)%nat -> (length bytes2 <= length buffer - 80)%nat ->
  (forall op, Dispatch.from_u32 (Dispatch.ih_opcode (Dispatch.read_in_header bytes1)) = Some op ->
     op <> Dispatch.FUSE_WRITE) ->
  Splice.new_splice_write buffer fd size (Splice.PipeOk bytes1) (Splice.PipeOk bytes2)
  = (if Dispatch.ih_len (Dispatch.read_in_header bytes1) =? Z.of_nat size
     then Splice.SSome {| Splice.sheader := Dispatch.read_in_header bytes1;
                          Splice.sdata := skipn 40 (firstn size (firstn 80 bytes1 ++ bytes2));
                          Splice.source_fd := None |}
     else Splice.SNone,
     [(0%nat, 80%nat); (80%nat, (length buffer - 80)%nat)]).
Proof.
  intros buffer fd size bytes1 bytes2 H1 H2 H3 H4 H5 Hop.
  assert (Hl : length (firstn 80 bytes1) = 80%nat) by (apply firstn_length_le; exact H3).
  set (buffer1 := firstn 80 bytes1 ++ skipn 80 buffer).
  assert (Hb1 : length buffer1 = length buffer)
    by (unfold buffer1; rewrite length_app, Hl, length_skipn; lia).
  assert (Hh : forall x, Dispatch.read_in_header (firstn 80 bytes1 ++ x)
                         = Dispatch.read_in_header bytes1).
  { intros x. rewrite <- (read_in_header_firstn 80 (firstn 80 bytes1 ++ x)) by lia.
    rewrite firstn_app_le by lia. rewrite firstn_firstn. cbn [Nat.min].
    apply read_in_header_firstn. lia. }
  unfold Splice.new_splice_write, Dispatch.size_of_fuse_in_header.
  replace (size <? 40)%nat with false by (symmetry; apply Nat.ltb_ge; lia).
  replace (size <? Splice.read_limit)%nat with false
    by (symmetry; apply Nat.ltb_ge; unfold Splice.read_limit, Splice.request_write_header_size,
      Splice.size_of_fuse_write_in, Splice.PAGE_SIZE, Dispatch.size_of_fuse_in_header; lia).
  unfold Splice.request_write_header_size, Splice.size_of_fuse_write_in,
    Dispatch.size_of_fuse_in_header; cbn [Nat.add].
  replace (length buffer <? 80)%nat with false by (symmetry; apply Nat.ltb_ge; lia).
  rewrite Hl. cbn [Nat.ltb Nat.leb].
  rewrite write_at_0 by lia. rewrite Hl. fold buffer1. unfold buffer1 at 1. rewrite Hh.
  replace (match Dispatch.from_u32 (Dispatch.ih_opcode (Dispatch.read_in_header bytes1)) with
           | Some opcode => negb (Splice.is_write opcode)
           | None => true end) with true.
  2:{ destruct (Dispatch.from_u32 _) as [op|] eqn:E; [|reflexivity].
      specialize (Hop op eq_refl). destruct op; cbn; congruence. }
  unfold Splice.read_request. rewrite Hb1.
  replace (size <? length buffer)%nat with true by (symmetry; apply Nat.ltb_lt; lia).
  replace (length buffer <? 80)%nat with false by (symmetry; apply Nat.ltb_ge; lia).
  cbn [negb]. rewrite (firstn_all2 bytes2) by exact H5.
  assert (Hw : Splice.write_at buffer1 80 bytes2
               = firstn 80 bytes1 ++ bytes2 ++ skipn (80 + length bytes2) buffer1).
  { unfold Splice.write_at, buffer1. rewrite firstn_app_le by lia.
    rewrite firstn_firstn. reflexivity. }
  rewrite Hw, app_assoc, firstn_app_le by (rewrite length_app; lia).
  unfold Splice.parse_slice, Dispatch.size_of_fuse_in_header.
  rewrite firstn_length_le by (rewrite length_app; lia).
  replace (size <? 40)%nat with false by (symmetry; apply Nat.ltb_ge; lia).
  cbn [Splice.sheader]. rewrite read_in_header_firstn by lia. rewrite Hh.
  rewrite (Z.eqb_sym (Z.of_nat size)).
  destruct (Dispatch.ih_len (Dispatch.read_in_header bytes1) =? Z.of_nat size); reflexivity.
Qed.

(** ** Dispatcher state *)






(** ** The INIT handshake *)

Lemma le_field : forall pre n v post,
  le_value (firstn n (skipn (length pre) (pre ++ le_bytes n v ++ post)))
  = v mod 2 ^ (8 * Z.of_nat n).
Proof.
  intros. rewrite (skipn_prefix _ _ (length pre)) by reflexivity.
  rewrite (firstn_prefix _ _ n) by apply le_bytes_length. apply le_value_le_bytes.
Qed.

Lemma abi_supported : forall arg,
  (7 < Dispatch.major arg \/ (Dispatch.major arg = 7 /\ 6 <= Dispatch.minor arg)) ->
  (Dispatch.major arg <? 7) || ((Dispatch.major arg =? 7) && (Dispatch.minor arg <? 6)) = false.
Proof.
  intros arg Hv. apply orb_false_iff. split; [apply Z.ltb_ge; lia|].
  apply andb_false_iff. destruct (Z.eq_dec (Dispatch.major arg) 7).
  - right. apply Z.ltb_ge. lia.
  - left. apply Z.eqb_neq. exact n.
Qed.

(** INIT with a supported ABI (7.6 or later) in [request.rs]: the protocol
    version is recorded and [init] is called.  If [init] succeeds the session
    becomes initialized and the one reply is an 80-byte message (16-byte
    header with [error = 0], then the 64-byte [fuse_init_out]) announcing
    ABI 7.26, echoing [max_readahead], granting exactly the requested flags
    that are also in [INIT_FLAGS], and [max_write] = 16 MiB.  If [init]
    fails with [err] the reply is a bare [-err] header and [initialized]
    keeps its value. *)
Theorem dispatch_init_negotiation : forall se req arg rest,
  Dispatch.from_u32 (Dispatch.ih_opcode (Dispatch.header req)) = Some Dispatch.FUSE_INIT ->
  Dispatch.payload req = Dispatch.fuse_init_in_bytes arg ++ rest ->
  0 <= Dispatch.major arg < 2 ^ 32 -> 0 <= Dispatch.minor arg < 2 ^ 32 ->
  0 <= Dispatch.max_readahead arg < 2 ^ 32 -> 0 <= Dispatch.flags arg < 2 ^ 32 ->
  (7 < Dispatch.major arg \/ (Dispatch.major arg = 7 /\ 6 <= Dispatch.minor arg)) ->
  let u := Dispatch.ih_unique (Dispatch.header req) in
  let image := Dispatch.fuse_init_out_image arg in
  let field o n := le_value (firstn n (skipn o image)) in
  Dispatch.dispatch se req None
  = Some ({| Dispatch.proto_major := Dispatch.major arg;
             Dispatch.proto_minor := Dispatch.minor arg;
             Dispatch.initialized := true; Dispatch.destroyed := Dispatch.destroyed se |},
          [Dispatch.CallInit;
           Dispatch.Sent [out_header_bytes {| oh_len := 80; oh_error := 0; oh_unique := u |};
                          image]]) /\
  length image = 64%nat /\
  field 0%nat 4%nat = 7 /\ field 4%nat 4%nat = 26 /\
  field 8%nat 4%nat = Dispatch.max_readahead arg /\
  field 12%nat 4%nat = Z.land (Dispatch.flags arg) Dispatch.INIT_FLAGS /\
  (forall k, Z.testbit (field 12%nat 4%nat) k
             = Z.testbit (Dispatch.flags arg) k && Z.testbit Dispatch.INIT_FLAGS k) /\
  field 20%nat 4%nat = 16777216 /\
  (forall err, 0 <= err < 2 ^ 31 ->
     Dispatch.dispatch se req (Some err)
     = Some ({| Dispatch.proto_major := Dispatch.major arg;
                Dispatch.proto_minor := Dispatch.minor arg;
                Dispatch.initialized := Dispatch.initialized se;
                Dispatch.destroyed := Dispatch.destroyed se |},
             [Dispatch.CallInit;
              Dispatch.Sent [out_header_bytes {| oh_len := 16; oh_error := - err;
                                                 oh_unique := u |}]])).
Proof.
  intros se req arg rest Hop Hp H1 H2 H3 H4 Hv u image field. subst u image field.
  assert (Hflags : le_value (firstn 4 (skipn 12 (Dispatch.fuse_init_out_image arg)))
                   = Z.land (Dispatch.flags arg) Dispatch.INIT_FLAGS).
  { unfold Dispatch.fuse_init_out_image.
    rewrite (app_assoc (le_bytes 4 _) (le_bytes 4 _)), (app_assoc _ (le_bytes 4 _)).
    change 12%nat with (length (le_bytes 4 Dispatch.FUSE_KERNEL_VERSION
                                ++ le_bytes 4 Dispatch.FUSE_KERNEL_MINOR_VERSION
                                ++ le_bytes 4 (Dispatch.max_readahead arg))).
    rewrite le_field. change (8 * Z.of_nat 4) with 32.
    rewrite <- Z.land_ones, <- Z.land_assoc by lia. reflexivity. }
  split; [|split; [|split; [|split; [|split; [|split; [|split; [|split]]]]]]].
  - unfold Dispatch.dispatch. rewrite Hop, Hp. cbn [Dispatch.is_init].
    rewrite fetch_init_in_bytes by assumption. rewrite abi_supported by exact Hv.
    unfold Replies.run_terminal. cbn [Replies.send_args].
    rewrite send_some by reflexivity. reflexivity.
  - unfold Dispatch.fuse_init_out_image. rewrite !length_app, !le_bytes_length. reflexivity.
  - reflexivity.
  - reflexivity.
  - unfold Dispatch.fuse_init_out_image.
    rewrite (app_assoc (le_bytes 4 _) (le_bytes 4 _)).
    change 8%nat with (length (le_bytes 4 Dispatch.FUSE_KERNEL_VERSION
                               ++ le_bytes 4 Dispatch.FUSE_KERNEL_MINOR_VERSION)).
    rewrite le_field. change (8 * Z.of_nat 4) with 32. apply Z.mod_small. exact H3.
  - exact Hflags.
  - intros k. rewrite Hflags. apply Z.land_spec.
  - reflexivity.
  - intros err Herr. unfold Dispatch.dispatch. rewrite Hop, Hp. cbn [Dispatch.is_init].
    rewrite fetch_init_in_bytes by assumption. rewrite abi_supported by exact Hv.
    rewrite reply_error_bare by exact Herr. reflexivity.
Qed.

(** The older [Session::dispatch] answers every accepted INIT with
    [flags = FUSE_ASYNC_READ] (1), whatever flags the kernel offered, in a
    40-byte message (16-byte header, 24-byte [fuse_init_out]). *)
Theorem dispatch_v0_init_flags : forall se req arg rest,
  Dispatch.from_u32_v0 (Dispatch.ih_opcode (Dispatch.header req)) = Some Dispatch.FUSE_INIT ->
  Dispatch.payload req = Dispatch.fuse_init_in_bytes arg ++ rest ->
  0 <= Dispatch.major arg < 2 ^ 32 -> 0 <= Dispatch.minor arg < 2 ^ 32 ->
  0 <= Dispatch.max_readahead arg < 2 ^ 32 -> 0 <= Dispatch.flags arg < 2 ^ 32 ->
  7 <= Dispatch.major arg ->
  let image := Dispatch.fuse_init_out_image_v0 arg in
  Dispatch.dispatch_v0 se req None
  = Some ({| Dispatch.proto_major := Dispatch.major arg;
             Dispatch.proto_minor := Dispatch.minor arg;
             Dispatch.initialized := true; Dispatch.destroyed := Dispatch.destroyed se |},
          [Dispatch.CallInit;
           Dispatch.Sent [out_header_bytes {| oh_len := 40; oh_error := 0;
                                              oh_unique := Dispatch.ih_unique (Dispatch.header req) |};
                          image]]) /\
  length image = 24%nat /\
  le_value (firstn 4 (skipn 12 image)) = 1 /\
  le_value (firstn 4 (skipn 8 image)) = Dispatch.max_readahead arg.
Proof.
  intros se req arg rest Hop Hp H1 H2 H3 H4 Hv image. subst image.
  split; [|split; [|split]].
  - unfold Dispatch.dispatch_v0. rewrite Hop, Hp. cbn [Dispatch.is_init].
    rewrite fetch_init_in_bytes by assumption.
    replace ((Dispatch.major arg <? 7) || ((Dispatch.major arg <? 7) && (Dispatch.minor arg <? 6)))
      with false by (symmetry; apply orb_false_iff; split;
                     [|apply andb_false_iff; left]; apply Z.ltb_ge; exact Hv).
    unfold Dispatch.send_reply_ok, Replies.run_terminal. cbn [Replies.send_args].
    rewrite send_some by reflexivity. reflexivity.
  - unfold Dispatch.fuse_init_out_image_v0. rewrite !length_app, !le_bytes_length. reflexivity.
  - reflexivity.
  - unfold Dispatch.fuse_init_out_image_v0.
    rewrite (app_assoc (le_bytes 4 _) (le_bytes 4 _)).
    change 8%nat with (length (le_bytes 4 Dispatch.FUSE_KERNEL_VERSION
                               ++ le_bytes 4 Dispatch.FUSE_KERNEL_MINOR_VERSION)).
    rewrite le_field. change (8 * Z.of_nat 4) with 32. apply Z.mod_small. exact H3.
Qed.

(** ** Replies are sent once *)


(** ** File modes *)

(** For a permission below [0o10000], the mode [mode_from_kind_and_perm]
    builds keeps the permission in its low 12 bits and the file type above
    them, so both can be read back and different (kind, perm) pairs give
    different modes; the type codes above the permission bits are the
    [DT_*] values readdir writes (FIFO 1, CHR 2, BLK 6, DIR 4, REG 8,
    LNK 10). *)
Theorem mode_from_kind_and_perm_decode : forall kind perm,
  0 <= perm < 4096 ->
  Z.land (Directory.mode_from_kind_and_perm kind perm) 4095 = perm /\
  Z.shiftr (Directory.mode_from_kind_and_perm kind perm) 12
  = Z.shiftr (Directory.mode_from_kind_and_perm kind 0) 12 /\
  (forall kind' perm', 0 <= perm' < 4096 ->
     Directory.mode_from_kind_and_perm kind perm = Directory.mode_from_kind_and_perm kind' perm' ->
     kind = kind' /\ perm = perm') /\
  map (fun k => Z.shiftr (Directory.mode_from_kind_and_perm k 0) 12)
      [Directory.NamedPipe; Directory.CharDevice; Directory.BlockDevice;
       Directory.Directory; Directory.RegularFile; Directory.Symlink]
  = [1; 2; 6; 4; 8; 10].
Proof.
  assert (Hlow : forall kind perm, 0 <= perm < 4096 ->
            Z.land (Directory.mode_from_kind_and_perm kind perm) 4095 = perm).
  { intros kind perm Hp. unfold Directory.mode_from_kind_and_perm.
    rewrite Z.land_lor_distr_l. change 4095 with (Z.ones 12).
    rewrite (Z.land_ones perm) by lia. rewrite Z.mod_small by (change (2 ^ 12) with 4096; lia).
    destruct kind; reflexivity. }
  assert (Hhigh : forall kind perm, 0 <= perm < 4096 ->
            Z.shiftr (Directory.mode_from_kind_and_perm kind perm) 12
            = Z.shiftr (Directory.mode_from_kind_and_perm kind 0) 12).
  { intros kind perm Hp. unfold Directory.mode_from_kind_and_perm.
    rewrite !Z.shiftr_lor.
    rewrite (Z.shiftr_div_pow2 perm) by lia. rewrite Z.div_small by (change (2 ^ 12) with 4096; lia).
    reflexivity. }
  intros kind perm Hp. split; [now apply Hlow|]. split; [now apply Hhigh|]. split; [|reflexivity].
  intros kind' perm' Hp' E. split.
  - apply (f_equal (fun x => Z.shiftr x 12)) in E. rewrite (Hhigh kind perm Hp), (Hhigh kind' perm' Hp') in E.
    destruct kind, kind'; try reflexivity; discriminate E.
  - apply (f_equal (fun x => Z.land x 4095)) in E. rewrite (Hlow kind perm Hp), (Hlow kind' perm' Hp') in E.
    exact E.
Qed.

(** ** Record layouts *)

Lemma skipn_le_bytes_app : forall n v rest o, (n <= o)%nat ->
  skipn o (le_bytes n v ++ rest) = skipn (o - n) rest.
Proof.
  intros n v rest o H. rewrite skipn_app, le_bytes_length.
  rewrite skipn_all2 by (rewrite le_bytes_length; exact H). reflexivity.
Qed.

Lemma firstn_le_bytes_app : forall n v rest,
  firstn n (le_bytes n v ++ rest) = le_bytes n v.
Proof. intros. apply firstn_prefix, le_bytes_length. Qed.

Ltac peel_field :=
  repeat (rewrite skipn_le_bytes_app by lia); cbv [Nat.sub];
  try change (skipn 0 ?l) with l;
  first [rewrite firstn_le_bytes_app | rewrite (firstn_all2 (le_bytes _ _)) by
           (rewrite le_bytes_length; lia)];
  rewrite le_value_le_bytes.

(** [read_in_header] reads back every field of a [fuse_in_header] image,
    and [Request::new] on such an image followed by a payload accepts it,
    with that header and payload, exactly when [len] does not exceed the
    buffer's length. *)
Theorem request_new_header_roundtrip : forall h payload,
  0 <= Dispatch.ih_len h < 2 ^ 32 -> 0 <= Dispatch.ih_opcode h < 2 ^ 32 ->
  0 <= Dispatch.ih_unique h < 2 ^ 64 -> 0 <= Dispatch.ih_nodeid h < 2 ^ 64 ->
  0 <= Dispatch.ih_uid h < 2 ^ 32 -> 0 <= Dispatch.ih_gid h < 2 ^ 32 ->
  0 <= Dispatch.ih_pid h < 2 ^ 32 -> 0 <= Dispatch.ih_padding h < 2 ^ 32 ->
  Dispatch.read_in_header (Dispatch.fuse_in_header_bytes h ++ payload) = h /\
  Dispatch.request_new (Dispatch.fuse_in_header_bytes h ++ payload)
  = if Dispatch.ih_len h <=? 40 + Z.of_nat (length payload)
    then Some {| Dispatch.header := h; Dispatch.payload := payload |}
    else None.
Proof.
  intros [l o u n ui g p pd] payload; cbn [Dispatch.ih_len Dispatch.ih_opcode Dispatch.ih_unique
    Dispatch.ih_nodeid Dispatch.ih_uid Dispatch.ih_gid Dispatch.ih_pid Dispatch.ih_padding].
  intros H1 H2 H3 H4 H5 H6 H7 H8.
  assert (Hr : Dispatch.read_in_header
                 (Dispatch.fuse_in_header_bytes
                    {| Dispatch.ih_len := l; Dispatch.ih_opcode := o; Dispatch.ih_unique := u;
                       Dispatch.ih_nodeid := n; Dispatch.ih_uid := ui; Dispatch.ih_gid := g;
                       Dispatch.ih_pid := p; Dispatch.ih_padding := pd |} ++ payload)
               = {| Dispatch.ih_len := l; Dispatch.ih_opcode := o; Dispatch.ih_unique := u;
                    Dispatch.ih_nodeid := n; Dispatch.ih_uid := ui; Dispatch.ih_gid := g;
                    Dispatch.ih_pid := p; Dispatch.ih_padding := pd |}).
  { unfold Dispatch.read_in_header, Dispatch.fuse_in_header_bytes.
    cbn [Dispatch.ih_len Dispatch.ih_opcode Dispatch.ih_unique Dispatch.ih_nodeid
         Dispatch.ih_uid Dispatch.ih_gid Dispatch.ih_pid Dispatch.ih_padding].
    rewrite <- !app_assoc.
    f_equal; peel_field; apply Z.mod_small; assumption. }
  split; [exact Hr|].
  unfold Dispatch.request_new. rewrite Hr.
  assert (Hlen : length (Dispatch.fuse_in_header_bytes
                  {| Dispatch.ih_len := l; Dispatch.ih_opcode := o; Dispatch.ih_unique := u;
                     Dispatch.ih_nodeid := n; Dispatch.ih_uid := ui; Dispatch.ih_gid := g;
                     Dispatch.ih_pid := p; Dispatch.ih_padding := pd |}) = 40%nat)
    by (unfold Dispatch.fuse_in_header_bytes; rewrite !length_app, !le_bytes_length; reflexivity).
  rewrite length_app, Hlen. unfold Dispatch.size_of_fuse_in_header.
  replace (40 + length payload <? 40)%nat with false by (symmetry; apply Nat.ltb_ge; lia).
  rewrite (skipn_prefix _ _ 40) by exact Hlen. cbn [Dispatch.header Dispatch.ih_len].
  destruct (Z.leb_spec l (40 + Z.of_nat (length payload))) as [Hl|Hl].
  - replace (Z.of_nat (40 + length payload) <? l) with false
      by (symmetry; apply Z.ltb_ge; lia). reflexivity.
  - replace (Z.of_nat (40 + length payload) <? l) with true
      by (symmetry; apply Z.ltb_lt; lia). reflexivity.
Qed.

(** Each entry [ReplyDirectory::add] appends (when it fits) reads back as
    the [fuse_dirent] fields it was given, in order: [ino], [off], the name
    length, the [DT_*] type code of the kind, then the name and zero
    padding; the bytes already in the buffer, its reply and its capacity are
    untouched. *)
Theorem directory_entry_layout : forall d ino off kind name d',
  Directory.add d ino off kind name = (false, d') ->
  let e := skipn (length (Directory.data d)) (Directory.data d') in
  firstn (length (Directory.data d)) (Directory.data d') = Directory.data d /\
  Directory.reply d' = Directory.reply d /\ Directory.capacity d' = Directory.capacity d /\
  le_value (firstn 8 e) = ino mod 2 ^ 64 /\
  le_value (firstn 8 (skipn 8 e)) = off mod 2 ^ 64 /\
  le_value (firstn 4 (skipn 16 e)) = Z.of_nat (length name) mod 2 ^ 32 /\
  le_value (firstn 4 (skipn 20 e)) = Z.shiftr (Directory.mode_from_kind_and_perm kind 0) 12 /\
  firstn (length name) (skipn 24 e) = name /\
  Forall (fun b => b = 0) (skipn (length name) (skipn 24 e)) /\
  (length e mod 8 = 0)%nat.
Proof.
  intros d ino off kind name d' H e. subst e.
  rewrite add_spec in H.
  destruct (Z.of_nat (length (Directory.data d)) + Directory.aligned_entry_size name
            >? Directory.capacity d); [discriminate|].
  pose proof (add_entry_length ino off kind name) as Hl.
  match type of H with
  | context [Directory.data d ++ ?x] => remember x as entry eqn:Hentry
  end.
  injection H as <-. cbn [Directory.data Directory.reply Directory.capacity].
  rewrite Hentry in Hl |- *.
  rewrite (firstn_prefix _ _ (length (Directory.data d))) by reflexivity.
  rewrite (skipn_prefix _ _ (length (Directory.data d))) by reflexivity.
  split; [reflexivity|]. split; [reflexivity|]. split; [reflexivity|].
  split; [peel_field; reflexivity|].
  split; [peel_field; reflexivity|].
  split; [peel_field; reflexivity|].
  split; [peel_field; destruct kind; reflexivity|].
  repeat (rewrite skipn_le_bytes_app by lia); cbv [Nat.sub].
  change (skipn 0 ?l) with l.
  split; [apply firstn_prefix; reflexivity|].
  split.
  - rewrite (skipn_prefix _ _ (length name)) by reflexivity.
    apply Forall_forall. intros b Hb. apply repeat_spec in Hb. exact Hb.
  - apply Nat2Z.inj. rewrite Nat2Z.inj_mod, Hl. unfold Directory.aligned_entry_size.
    change (Z.of_nat 8) with 8. rewrite Z.mul_comm, Z.mod_mul by lia. reflexivity.
Qed.

(** ** Splice reads stay within the buffer *)





(** * Witnesses of the further properties *)

Lemma mount_args_vector_witness :
  (forall o, In o [[97; 98]] -> ~ In 0 o) /\
  Mount.with_fuse_args [[97; 98]]
  = Some (wrap_i32 (Z.of_nat (S (length [[97; 98]]))), bytes_of_string "rust-fuse" :: [[97; 98]]) /\
  Mount.lowlevel_mount_args [[97; 98]]
  = Some (wrap_i32 (Z.of_nat (S (length [[97; 98]]))), bytes_of_string "fuse-rs" :: [[97; 98]]).
Proof.
  assert (H : forall o, In o [[97; 98]] -> ~ In 0 o)
    by (intros o [<-|[]]; cbn; intuition discriminate).
  split; [exact H|]. exact (proj2 (proj2 (mount_args_vector [[97; 98]])) H).
Defined.


Lemma run_v0_panics_witness :
  (length [1; 2] < 40)%nat /\
  LoopV0.run_v0 [Loop.RecvOk [1; 2]; Loop.RecvErr ENODEV] = (LoopV0.Panicked, []).
Proof.
  split; [cbn; lia|].
  apply (proj1 (run_v0_panics [])). cbn. lia.
Defined.

Lemma session_loops_compose_witness :
  fst (Loop.run [Loop.RecvErr EINTR]) = Loop.Pending /\
  Loop.run ([Loop.RecvErr EINTR] ++ [Loop.RecvErr ENODEV])
  = (fst (Loop.run [Loop.RecvErr ENODEV]),
     snd (Loop.run [Loop.RecvErr EINTR]) ++ snd (Loop.run [Loop.RecvErr ENODEV])).
Proof.
  split; [reflexivity|].
  apply (proj1 (session_loops_compose Dispatch.Request Dispatch.request_new
                  [Loop.RecvErr EINTR] [Loop.RecvErr ENODEV])).
  reflexivity.
Defined.

Lemma splice_small_requests_witness :
  let h := {| Dispatch.ih_len := 40; Dispatch.ih_opcode := 3; Dispatch.ih_unique := 7;
              Dispatch.ih_nodeid := 1; Dispatch.ih_uid := 0; Dispatch.ih_gid := 0;
              Dispatch.ih_pid := 0; Dispatch.ih_padding := 0 |} in
  let bytes := Dispatch.fuse_in_header_bytes h in
  Splice.new_splice_write (repeat 0 41) 3 40 (Splice.PipeOk bytes) (Splice.PipeErr EIO)
  = (Splice.SSome {| Splice.sheader := h; Splice.sdata := []; Splice.source_fd := None |},
     [(0%nat, 41%nat)]).
Proof.
  intros h bytes.
  rewrite (proj2 (splice_small_requests (repeat 0 41) 3 40 (Splice.PipeOk bytes)
                    (Splice.PipeErr EIO)) bytes eq_refl);
    try (cbn; lia).
  vm_compute. reflexivity.
Defined.

Lemma splice_large_write_witness :
  let h := {| Dispatch.ih_len := 4176; Dispatch.ih_opcode := 16; Dispatch.ih_unique := 7;
              Dispatch.ih_nodeid := 1; Dispatch.ih_uid := 0; Dispatch.ih_gid := 0;
              Dispatch.ih_pid := 0; Dispatch.ih_padding := 0 |} in
  let bytes := Dispatch.fuse_in_header_bytes h ++ repeat 1 40 in
  Splice.new_splice_write (repeat 0 80) 3 4176 (Splice.PipeOk bytes) (Splice.PipeErr EIO)
  = (Splice.SSome {| Splice.sheader := h; Splice.sdata := repeat 1 40;
                     Splice.source_fd := Some 3 |}, [(0%nat, 80%nat)]).
Proof.
  intros h bytes.
  rewrite (splice_large_write (repeat 0 80) 3 4176 bytes (Splice.PipeErr EIO));
    [| lia | cbn; lia | cbn; lia | vm_compute; reflexivity].
  vm_compute. reflexivity.
Defined.

Lemma splice_large_other_witness :
  let h := {| Dispatch.ih_len := 4176; Dispatch.ih_opcode := 15; Dispatch.ih_unique := 7;
              Dispatch.ih_nodeid := 1; Dispatch.ih_uid := 0; Dispatch.ih_gid := 0;
              Dispatch.ih_pid := 0; Dispatch.ih_padding := 0 |} in
  let bytes1 := Dispatch.fuse_in_header_bytes h ++ repeat 1 40 in
  fst (Splice.new_splice_write (repeat 0 4177) 3 4176 (Splice.PipeOk bytes1)
         (Splice.PipeOk (repeat 2 4096)))
  = Splice.SSome {| Splice.sheader := h; Splice.sdata := repeat 1 40 ++ repeat 2 4096;
                    Splice.source_fd := None |}.
Proof.
  intros h bytes1.
  rewrite (splice_large_other (repeat 0 4177) 3 4176 bytes1 (repeat 2 4096));
    [| lia | rewrite repeat_length; lia | cbn; lia | rewrite repeat_length; lia
     | rewrite !repeat_length; lia
     | intros op Hop; vm_compute in Hop; injection Hop as <-; discriminate].
  vm_compute. reflexivity.
Defined.



Lemma dispatch_init_negotiation_witness :
  let se := {| Dispatch.proto_major := 0; Dispatch.proto_minor := 0;
               Dispatch.initialized := false; Dispatch.destroyed := false |} in
  let arg := {| Dispatch.major := 7; Dispatch.minor := 31;
                Dispatch.max_readahead := 131072; Dispatch.flags := 4294967295 |} in
  let req := {| Dispatch.header :=
                  {| Dispatch.ih_len := 56; Dispatch.ih_opcode := 26; Dispatch.ih_unique := 1;
                     Dispatch.ih_nodeid := 0; Dispatch.ih_uid := 0; Dispatch.ih_gid := 0;
                     Dispatch.ih_pid := 0; Dispatch.ih_padding := 0 |};
                Dispatch.payload := Dispatch.fuse_init_in_bytes arg |} in
  Dispatch.dispatch se req None
  = Some ({| Dispatch.proto_major := 7; Dispatch.proto_minor := 31;
             Dispatch.initialized := true; Dispatch.destroyed := false |},
          [Dispatch.CallInit;
           Dispatch.Sent [out_header_bytes {| oh_len := 80; oh_error := 0; oh_unique := 1 |};
                          Dispatch.fuse_init_out_image arg]]) /\
  le_value (firstn 4 (skipn 12 (Dispatch.fuse_init_out_image arg)))
  = Z.land 4294967295 Dispatch.INIT_FLAGS.
Proof.
  intros se arg req.
  pose proof (dispatch_init_negotiation se req arg [] eq_refl
                ltac:(rewrite app_nil_r; reflexivity)
                ltac:(cbn; lia) ltac:(cbn; lia) ltac:(cbn; lia) ltac:(cbn; lia)
                ltac:(cbn; lia)) as T.
  cbv beta zeta in T. destruct T as (T1 & _ & _ & _ & _ & T2 & _). split; assumption.
Defined.

Lemma dispatch_v0_init_flags_witness :
  let se := {| Dispatch.proto_major := 0; Dispatch.proto_minor := 0;
               Dispatch.initialized := false; Dispatch.destroyed := false |} in
  let arg := {| Dispatch.major := 7; Dispatch.minor := 12;
                Dispatch.max_readahead := 131072; Dispatch.flags := 4294967295 |} in
  let req := {| Dispatch.header :=
                  {| Dispatch.ih_len := 56; Dispatch.ih_opcode := 26; Dispatch.ih_unique := 1;
                     Dispatch.ih_nodeid := 0; Dispatch.ih_uid := 0; Dispatch.ih_gid := 0;
                     Dispatch.ih_pid := 0; Dispatch.ih_padding := 0 |};
                Dispatch.payload := Dispatch.fuse_init_in_bytes arg |} in
  le_value (firstn 4 (skipn 12 (Dispatch.fuse_init_out_image_v0 arg))) = 1 /\
  Dispatch.dispatch_v0 se req None
  = Some ({| Dispatch.proto_major := 7; Dispatch.proto_minor := 12;
             Dispatch.initialized := true; Dispatch.destroyed := false |},
          [Dispatch.CallInit;
           Dispatch.Sent [out_header_bytes {| oh_len := 40; oh_error := 0; oh_unique := 1 |};
                          Dispatch.fuse_init_out_image_v0 arg]]).
Proof.
  intros se arg req.
  pose proof (dispatch_v0_init_flags se req arg [] eq_refl
                ltac:(rewrite app_nil_r; reflexivity)
                ltac:(cbn; lia) ltac:(cbn; lia) ltac:(cbn; lia) ltac:(cbn; lia)
                ltac:(cbn; lia)) as T.
  cbv beta zeta in T. destruct T as (T1 & _ & T2 & _). split; assumption.
Defined.


Lemma mode_from_kind_and_perm_decode_witness :
  Z.land (Directory.mode_from_kind_and_perm Directory.RegularFile 420) 4095 = 420 /\
  Z.shiftr (Directory.mode_from_kind_and_perm Directory.RegularFile 420) 12 = 8.
Proof.
  destruct (mode_from_kind_and_perm_decode Directory.RegularFile 420 ltac:(lia))
    as (H1 & H2 & _). split; [exact H1|]. rewrite H2. reflexivity.
Defined.

Lemma request_new_header_roundtrip_witness :
  let h := {| Dispatch.ih_len := 45; Dispatch.ih_opcode := 15; Dispatch.ih_unique := 9;
              Dispatch.ih_nodeid := 2; Dispatch.ih_uid := 1000; Dispatch.ih_gid := 1000;
              Dispatch.ih_pid := 77; Dispatch.ih_padding := 0 |} in
  Dispatch.request_new (Dispatch.fuse_in_header_bytes h ++ [1; 2; 3; 4; 5])
  = Some {| Dispatch.header := h; Dispatch.payload := [1; 2; 3; 4; 5] |}.
Proof.
  intros h.
  rewrite (proj2 (request_new_header_roundtrip h [1; 2; 3; 4; 5]
                    ltac:(cbn; lia) ltac:(cbn; lia) ltac:(cbn; lia) ltac:(cbn; lia)
                    ltac:(cbn; lia) ltac:(cbn; lia) ltac:(cbn; lia) ltac:(cbn; lia))).
  reflexivity.
Defined.

Lemma directory_entry_layout_witness :
  let d := Directory.new 1 in
  let d' := snd (Directory.add d 42 1 Directory.Directory (bytes_of_string "hello")) in
  le_value (firstn 8 (skipn (length (Directory.data d)) (Directory.data d'))) = 42 /\
  le_value (firstn 4 (skipn 20 (skipn (length (Directory.data d)) (Directory.data d')))) = 4.
Proof.
  intros d d'.
  destruct (directory_entry_layout d 42 1 Directory.Directory (bytes_of_string "hello") d'
              eq_refl) as (_ & _ & _ & H1 & _ & _ & H2 & _).
  rewrite H1, H2. split; reflexivity.
Defined.

